(** * Credential portal: the dashboard fetch and the upload form

    A shallow embedding of the control flow of the portal:
    - [fetchUserData], the effect of [StudentDashboard] (profile fetch,
      one lookup per credential id, [Promise.all], null filter, one
      [catch] block);
    - [handleSubmit] and the upload form of [CredentialUpload], with
      [handleFileChange] and the page taken event by event;
    - what the dashboard renders of its state, and the navigation bar:
      [userInfo], the role paths and [navLinks], [handleSignOut].

    JavaScript objects are finite maps from field names to values,
    promises are their eventual outcome, and the effects of the
    component (React state, calls to the store, console, toasts) are
    threaded through a small state-and-rejection monad. *)

From Stdlib Require Import Ascii.
From stdpp Require Import gmap strings list fin_maps.

Open Scope string_scope.
Open Scope list_scope.

(** ** Values and records *)

(** A Firestore field value, as far as the portal reads one. *)
Inductive FieldValue :=
| VString (s : string)
| VNumber (n : Z)
| VTimestamp (seconds : Z).

#[global] Instance FieldValue_eq_dec : EqDecision FieldValue.
Proof. solve_decision. Defined.

(** The fields of a stored document, [credDoc.data()]. *)
Abbreviation DocData := (gmap string FieldValue).

(** A credential as the dashboard holds it: a plain object. *)
Abbreviation Credential := (gmap string FieldValue).

(** The user object of the auth context; only [uid] is read. *)
Record User := { uid : string }.

Module Profile.
(** What [getUserProfile] resolves to.  Both fields are read through
    optional chaining, so each may be missing. *)
Record t := mk {
  displayName : option string;
  credentials : option (list string)
}.
End Profile.

(** Modelled from the spec: the error taxonomy of the store, which the
    sources never declare (they only catch whatever was thrown). *)
Inductive JsError :=
| ProfileNotFound
| TransientStoreError
| LookupError.

#[global] Instance JsError_eq_dec : EqDecision JsError.
Proof. solve_decision. Defined.

(** ** Promises *)

(** A promise is modelled by the outcome it settles to. *)
Inductive Promise (A : Type) :=
| Fulfilled (a : A)
| Rejected (e : JsError).
Arguments Fulfilled {A} a.
Arguments Rejected {A} e.

(** The rest of an [async] function after its [await]: it runs on the
    fulfilled value, and a rejection passes through. *)
Definition and_then {A B} (p : Promise A) (f : A → B) : Promise B :=
  match p with
  | Fulfilled a => Fulfilled (f a)
  | Rejected e => Rejected e
  end.

(** [Promise.all]: the values in input order when every promise is
    fulfilled, a rejection as soon as one is rejected.  With several
    rejections JavaScript reports the one that settles first; settle
    times are not part of the model and the leftmost one is taken (the
    only reader of the reason is [console.error]). *)
Fixpoint promise_all {A} (ps : list (Promise A)) : Promise (list A) :=
  match ps with
  | [] => Fulfilled []
  | Fulfilled a :: ps' =>
      match promise_all ps' with
      | Fulfilled l => Fulfilled (a :: l)
      | Rejected e => Rejected e
      end
  | Rejected e :: _ => Rejected e
  end.

(** [arr.filter(x => x !== null)] on an array of objects and nulls. *)
Fixpoint filter_not_null {A} (l : list (option A)) : list A :=
  match l with
  | [] => []
  | Some a :: l' => a :: filter_not_null l'
  | None :: l' => filter_not_null l'
  end.

(** ** The document store *)

(** What [getDoc] resolves to. [snap_data] is [None] when the document
    does not exist. *)
Record DocumentSnapshot := {
  snap_id : string;
  snap_data : option DocData
}.

Definition snap_exists (s : DocumentSnapshot) : bool :=
  match snap_data s with Some _ => true | None => false end.

(** The collaborators of the dashboard: the auth context, the user
    service (imported from [services/userService]; the outcome of each
    call is a parameter) and the [credentials] collection, with the ids
    whose read is rejected by the store. *)
Record Env := {
  user : option User;
  userService : string → Promise (option Profile.t);
  credentialDocs : gmap string DocData;
  credentialFaults : gmap string JsError
}.

(** ** Effects *)

Inductive Event :=
| CallGetUserProfile (uid : string)
| CallGetDoc (collection id : string)
| ConsoleError (msg : string) (e : JsError)
| ToastError (msg : string).

#[global] Instance Event_eq_dec : EqDecision Event.
Proof. solve_decision. Defined.

(** The React state of [StudentDashboard] and the trace of what the
    component did to the outside, oldest event first. *)
Record World := {
  userProfile : option Profile.t;
  activeTab : string;
  credentials : list Credential;
  trace : list Event
}.

(** The state on mount: the arguments of the three [useState] calls. *)
Definition initial_world : World :=
  {| userProfile := None; activeTab := "received"; credentials := [];
     trace := [] |}.

(** Computations: a world transformer that ends in a value or in a
    thrown error. *)
Definition M (A : Type) : Type := World → World * Promise A.

Definition ret {A} (a : A) : M A := λ w, (w, Fulfilled a).

Definition bind {A B} (m : M A) (k : A → M B) : M B :=
  λ w, match m w with
       | (w', Fulfilled a) => k a w'
       | (w', Rejected e) => (w', Rejected e)
       end.

Notation "x <~ m ;; k" := (bind m (λ x, k))
  (at level 100, m at next level, right associativity).
Notation "m ;;; k" := (bind m (λ _, k))
  (at level 100, right associativity).

(** [try { body } catch (error) { handler }]. *)
Definition try_catch {A} (body : M A) (handler : JsError → M A) : M A :=
  λ w, match body w with
       | (w', Fulfilled a) => (w', Fulfilled a)
       | (w', Rejected e) => handler e w'
       end.

(** [await p]. *)
Definition await {A} (p : Promise A) : M A := λ w, (w, p).

(** World updates: appending to the trace and the two state setters. *)
Definition add_events (evs : list Event) (w : World) : World :=
  {| userProfile := userProfile w; activeTab := activeTab w;
     credentials := credentials w; trace := trace w ++ evs |}.

Definition set_profile (p : option Profile.t) (w : World) : World :=
  {| userProfile := p; activeTab := activeTab w;
     credentials := credentials w; trace := trace w |}.

Definition set_credentials (cs : list Credential) (w : World) : World :=
  {| userProfile := userProfile w; activeTab := activeTab w;
     credentials := cs; trace := trace w |}.

Definition emit (ev : Event) : M unit :=
  λ w, (add_events [ev] w, Fulfilled tt).

Definition setUserProfile (p : option Profile.t) : M unit :=
  λ w, (set_profile p w, Fulfilled tt).

Definition setCredentials (cs : list Credential) : M unit :=
  λ w, (set_credentials cs w, Fulfilled tt).

Definition console_error (msg : string) (e : JsError) : M unit :=
  emit (ConsoleError msg e).

Definition toast_error (msg : string) : M unit :=
  emit (ToastError msg).

(** [xs.map(f)] where calling [f] has effects: the calls happen in
    list order and none of them throws. *)
Fixpoint map_calls {A B} (f : A → M B) (xs : list A) : M (list B) :=
  match xs with
  | [] => ret []
  | x :: xs' => y <~ f x ;; ys <~ map_calls f xs' ;; ret (y :: ys)
  end.

(** ** The dashboard *)

(** [getUserProfile(uid)]: the call is issued, the promise comes back. *)
Definition getUserProfile (env : Env) (uid : string)
  : M (Promise (option Profile.t)) :=
  emit (CallGetUserProfile uid) ;;; ret (userService env uid).

(** What the store answers to a read of [credentials/credId]: a
    rejection for an id it faults on, else a snapshot, which carries
    the id of the reference it was read through. *)
Definition store_read (env : Env) (credId : string)
  : Promise DocumentSnapshot :=
  match credentialFaults env !! credId with
  | Some e => Rejected e
  | None => Fulfilled {| snap_id := credId;
                         snap_data := credentialDocs env !! credId |}
  end.

(** [getDoc(doc(db, 'credentials', credId))]. *)
Definition getDoc (env : Env) (credId : string)
  : M (Promise DocumentSnapshot) :=
  emit (CallGetDoc "credentials" credId) ;;; ret (store_read env credId).

(** [{ id: credDoc.id, ...credDoc.data() }]: the spread comes after the
    [id] property, so a stored field of that name wins. *)
Definition spread_with_id (id : string) (data : DocData) : Credential :=
  data ∪ {[ "id" := VString id ]}.

(** [credDoc.exists() ? { id: credDoc.id, ...credDoc.data() } : null]. *)
Definition toCredential (credDoc : DocumentSnapshot) : option Credential :=
  if snap_exists credDoc
  then Some (spread_with_id (snap_id credDoc) (default ∅ (snap_data credDoc)))
  else None.

(** The callback of [profile.credentials.map]: an [async] arrow, so the
    call returns a promise after issuing its [getDoc]. *)
Definition credentialPromise (env : Env) (credId : string)
  : M (Promise (option Credential)) :=
  p <~ getDoc env credId ;; ret (and_then p toCredential).

(** What the promise of one id settles to. *)
Definition settled (env : Env) (credId : string)
  : Promise (option Credential) :=
  and_then (store_read env credId) toCredential.

(** [profile?.credentials?.length > 0]. *)
Definition has_credentials (profile : option Profile.t) : bool :=
  match profile with
  | Some p => match Profile.credentials p with
              | Some (_ :: _) => true
              | _ => false
              end
  | None => false
  end.

(** [profile.credentials], read only under [has_credentials]. *)
Definition credential_ids (profile : option Profile.t) : list string :=
  match profile with
  | Some p => default [] (Profile.credentials p)
  | None => []
  end.

(** Lines 32 to 38: one promise per id, then [Promise.all], awaited. *)
Definition resolveCredentials (env : Env) (ids : list string)
  : M (list (option Credential)) :=
  credentialPromises <~ map_calls (credentialPromise env) ids ;;
  await (promise_all credentialPromises).

(** The body of the [try] block. *)
Definition fetchUserData_try (env : Env) (u : User) : M unit :=
  pr <~ getUserProfile env (uid u) ;;
  profile <~ await pr ;;
  setUserProfile profile ;;;
  if has_credentials profile then
    fetchedCredentials <~ resolveCredentials env (credential_ids profile) ;;
    setCredentials (filter_not_null fetchedCredentials)
  else ret tt.

(** The [catch] block: it never looks at the kind of [error]. *)
Definition fetchUserData_catch (error : JsError) : M unit :=
  console_error "Error fetching user data:" error ;;;
  toast_error "Failed to load credentials".

Definition fetchUserData (env : Env) : M unit :=
  match user env with
  | Some u => try_catch (fetchUserData_try env u) fetchUserData_catch
  | None => ret tt
  end.

(** One run of the effect, as a world transformer. *)
Definition run (env : Env) (w : World) : World := (fetchUserData env w).1.

(** ** Observations on a trace *)

Definition is_toast (ev : Event) : bool :=
  match ev with ToastError _ => true | _ => false end.

Definition is_store_call (ev : Event) : bool :=
  match ev with
  | CallGetUserProfile _ | CallGetDoc _ _ => true
  | _ => false
  end.

Definition toasts (w : World) : list Event := filter is_toast (trace w).
Definition store_calls (w : World) : list Event :=
  filter is_store_call (trace w).

(** What the [catch] block leaves on the trace. *)
Definition failure_events (e : JsError) : list Event :=
  [ConsoleError "Error fetching user data:" e;
   ToastError "Failed to load credentials"].

(** The [id] field of a credential, which the list renders. *)
Definition credential_id (c : Credential) : option FieldValue := c !! "id".

(** Modelled from the spec: [getUserProfile] of the user service, which
    the dashboard imports and whose source is missing.  The specification gives
    it the contract [resolveProfile(userId) -> UserProfile | fails with
    NotFound/TransientError]: an unreachable store fails with the
    transient error, a missing profile fails with [ProfileNotFound]. *)
Definition resolveProfile (profiles : gmap string Profile.t)
    (unreachable : bool) (userId : string) : Promise (option Profile.t) :=
  if unreachable then Rejected TransientStoreError
  else match profiles !! userId with
       | Some p => Fulfilled (Some p)
       | None => Rejected ProfileNotFound
       end.

(** What the page shows of a world: the two state fields it renders
    and the notifications. *)
Definition visible (w : World)
  : option Profile.t * list Credential * list Event :=
  (userProfile w, credentials w, toasts w).

(** The aggregate as the specification words it: every id is looked
    up, and an absent record and a store fault are both dropped. *)
Definition all_settle_spec (env : Env) (ids : list string)
  : list Credential :=
  omap (λ id, match credentialFaults env !! id with
              | Some _ => None
              | None => spread_with_id id <$> credentialDocs env !! id
              end) ids.

(** The records of the ids that exist, in the order of the ids. *)
Definition existing_records (env : Env) (ids : list string)
  : list Credential :=
  omap (λ id, spread_with_id id <$> credentialDocs env !! id) ids.

(** ** What the dashboard renders *)

(** [userProfile?.displayName || 'Student'], the name of the welcome
    banner: an empty name is falsy and falls back as a missing one. *)
Definition welcomeName (w : World) : string :=
  match userProfile w with
  | Some p =>
      match Profile.displayName p with
      | Some n => if decide (n = "") then "Student" else n
      | None => "Student"
      end
  | None => "Student"
  end.

(** The credentials section, [credentials.length > 0 ? cards : text]:
    the text of the empty state, or one card per credential, each
    card standing here for its [key], which is [credential.id]. *)
Inductive CredentialList :=
| NoCredentialsFound
| CredentialCards (keys : list (option FieldValue)).

Definition credentialList (w : World) : CredentialList :=
  match credentials w with
  | [] => NoCredentialsFound
  | c :: cs => CredentialCards (map credential_id (c :: cs))
  end.

(** The effect has [user] as its dependency: it runs again with every
    new value of the auth context, each run in the state the previous
    one left. *)
Fixpoint runs (envs : list Env) (w : World) : World :=
  match envs with
  | [] => w
  | env :: envs' => runs envs' (run env w)
  end.

(** ** The upload form *)

Module CredentialUpload.

(** The three [useState] cells of the component. *)
Record State := {
  step : nat;
  uploading : bool;
  preview : option string
}.

Definition initial : State :=
  {| step := 1; uploading := false; preview := None |}.

Definition setUploading (b : bool) (s : State) : State :=
  {| step := step s; uploading := b; preview := preview s |}.

Definition setStep (n : nat) (s : State) : State :=
  {| step := n; uploading := uploading s; preview := preview s |}.

(** What the user has entered: the value of the select, the value of
    the text input and the chosen file, if any. *)
Record Draft := {
  credentialType : string;
  studentName : string;
  document : option string
}.

Inductive Field := TypeField | NameField | DocumentField.

(** The [required] attribute: on the select and on the text input,
    not on the file input. *)
Definition required (f : Field) : bool :=
  match f with
  | TypeField | NameField => true
  | DocumentField => false
  end.

Definition value_missing (d : Draft) (f : Field) : bool :=
  match f with
  | TypeField => bool_decide (credentialType d = "")
  | NameField => bool_decide (studentName d = "")
  | DocumentField => bool_decide (document d = None)
  end.

(** The controls the browser reports as invalid. *)
Definition invalid_fields (d : Draft) : list Field :=
  filter (λ f, required f && value_missing d f = true)
         [TypeField; NameField; DocumentField].

(** [handleSubmit]: it reads nothing of the form; the simulated
    upload is a timer, which leaves the state alone. *)
Definition handleSubmit (s : State) : State :=
  setStep 2 (setUploading false (setUploading true s)).

(** Pressing the submit button of [<form onSubmit={handleSubmit}>]:
    the submit event, and with it the handler, only fires when no
    required control is empty. *)
Definition submit (d : Draft) (s : State) : State :=
  match invalid_fields d with
  | [] => handleSubmit s
  | _ :: _ => s
  end.


(** *** The rest of the component *)

Definition setPreview (p : option string) (s : State) : State :=
  {| step := step s; uploading := uploading s; preview := p |}.

(** [handleSubmit] up to its [await], and from the [await] on. *)
Definition handleSubmit_start (s : State) : State := setUploading true s.

Definition handleSubmit_resume (s : State) : State :=
  setStep 2 (setUploading false s).

(** The page between two events: the state cells, the timers of
    [handleSubmit] that have not fired yet, and the [FileReader]s that
    have not ended yet, oldest first, each given by what it will end
    with: the data URL, or null when the read fails. *)
Record Page := {
  ui : State;
  timers : nat;
  readers : list (option string)
}.

Definition mounted : Page := {| ui := initial; timers := 0; readers := [] |}.

(** [handleFileChange]: a file of the selection is given by what its
    read ends with.  Only [files[0]] is read, and an empty selection
    does nothing; for a file, a new reader is started, and nothing
    stops the readers started before. *)
Definition handleFileChange (files : list (option string)) (p : Page)
  : Page :=
  match files with
  | [] => p
  | result :: _ =>
      {| ui := ui p; timers := timers p; readers := readers p ++ [result] |}
  end.

(** [reader.onloadend], of the reader at position [i]: it sets the
    preview to [reader.result], and the reader is done. *)
Definition onloadend (i : nat) (p : Page) : option Page :=
  match readers p !! i with
  | Some result =>
      Some {| ui := setPreview result (ui p); timers := timers p;
              readers := delete i (readers p) |}
  | None => None
  end.

(** What can happen to the page. *)
Inductive Action :=
| PressSubmit (d : Draft)
| TimerFires
| ChooseFiles (files : list (option string))
| ReaderEnds (i : nat)
| UploadAnother.

(** One event.  The submit button belongs to the form of [step === 1]
    and is disabled while [uploading]; the "Upload Another" button
    belongs to the other branch.  The file input takes a selection
    whatever the step, since the form is still there while it leaves
    the page, and the readers end in any order.  [None]: the control is
    not there to be used, or there is no such timer or reader. *)
Definition act (a : Action) (p : Page) : option Page :=
  match a with
  | PressSubmit d =>
      if bool_decide (step (ui p) = 1) && negb (uploading (ui p)) then
        match invalid_fields d with
        | [] => Some {| ui := handleSubmit_start (ui p);
                        timers := S (timers p); readers := readers p |}
        | _ :: _ => Some p
        end
      else None
  | TimerFires =>
      match timers p with
      | S n => Some {| ui := handleSubmit_resume (ui p); timers := n;
                       readers := readers p |}
      | O => None
      end
  | ChooseFiles files => Some (handleFileChange files p)
  | ReaderEnds i => onloadend i p
  | UploadAnother =>
      if bool_decide (step (ui p) = 1) then None
      else Some {| ui := setStep 1 (ui p); timers := timers p;
                   readers := readers p |}
  end.

(** A sequence of events, oldest first. *)
Fixpoint play (acts : list Action) (p : Page) : option Page :=
  match acts with
  | [] => Some p
  | a :: acts' =>
      match act a p with
      | Some p' => play acts' p'
      | None => None
      end
  end.

(** A submit press that the form lets through. *)
Definition accepted (a : Action) : bool :=
  match a with
  | PressSubmit d =>
      bool_decide (credentialType d ≠ "" ∧ studentName d ≠ "")
  | _ => false
  end.

(** At most one simulated upload is under way, exactly while the
    spinner shows, and only on the form. *)
Definition consistent (p : Page) : Prop :=
  (step (ui p) = 1 ∨ step (ui p) = 2) ∧
  timers p = (if uploading (ui p) then 1 else 0) ∧
  (uploading (ui p) = true → step (ui p) = 1).

End CredentialUpload.

(** ** The navigation bar *)

Module Navbar.

(** A user object, of the auth context or of Auth0: its properties,
    a property being a string or undefined. *)
Abbreviation JsObject := (gmap string (option string)).

(** [o.k]: a property that is not there reads as undefined. *)
Definition prop (o : JsObject) (k : string) : option string :=
  default None (o !! k).

(** [o?.k]. *)
Definition opt_prop (o : option JsObject) (k : string) : option string :=
  match o with
  | Some o' => prop o' k
  | None => None
  end.

(** [a || b] on strings: undefined and the empty string are falsy. *)
Definition js_or (a b : option string) : option string :=
  match a with
  | Some s => if decide (s = "") then b else Some s
  | None => b
  end.

(** [{ ...contextUser, picture: .., name: .., email: .. }]. *)
Definition userInfo (contextUser auth0User : option JsObject) : JsObject :=
  <["email" := js_or (opt_prop auth0User "email")
                     (opt_prop contextUser "email")]>
    (<["name" := js_or (opt_prop auth0User "name")
                       (opt_prop contextUser "name")]>
       (<["picture" := opt_prop auth0User "picture"]>
          (default ∅ contextUser))).

(** [s.split(sep)[0]] for a one-character separator: the part of [s]
    before the first [sep], all of [s] when there is none. *)
Fixpoint before (sep : Ascii.ascii) (s : string) : string :=
  match s with
  | EmptyString => EmptyString
  | String a s' =>
      if decide (a = sep) then EmptyString else String a (before sep s')
  end.

Fixpoint contains (sep : Ascii.ascii) (s : string) : bool :=
  match s with
  | EmptyString => false
  | String a s' => if decide (a = sep) then true else contains sep s'
  end.

(** The name beside the avatar:
    [userInfo.name?.split(' ')[0] || userInfo.email?.split('@')[0]]. *)
Definition shortName (info : JsObject) : option string :=
  js_or (before " "%char <$> prop info "name")
        (before "@"%char <$> prop info "email").

(** The two role constants of [utils/schema], which the bar imports. *)
Record UserTypes := {
  STUDENT : string;
  INSTITUTE : string
}.

Definition getDashboardPath (userTypes : UserTypes)
    (userType : option string) : string :=
  if decide (userType = Some (STUDENT userTypes)) then "/student/dashboard"
  else if decide (userType = Some (INSTITUTE userTypes))
       then "/institution/dashboard"
       else "/".

Definition getProfilePath (userTypes : UserTypes)
    (userType : option string) : string :=
  if decide (userType = Some (STUDENT userTypes)) then "/student/profile"
  else if decide (userType = Some (INSTITUTE userTypes))
       then "/institution/profile"
       else "/".

(** [navLinks], title and path; the path is the [key] of the link. *)
Definition navLinks (userTypes : UserTypes) (userType : option string)
  : list (string * string) :=
  [("Dashboard", getDashboardPath userTypes userType);
   ("Upload Credential", "/institution/upload-credential");
   ("Verify Credential", "/verify");
   ("Profile", getProfilePath userTypes userType);
   ("About", "/about");
   ("FAQ", "/faq")].

Inductive Event :=
| SuccessToast (msg : string)
| ErrorToast (msg : string)
| ConsoleLog (msg : string) (e : JsError)
| LogoutCall (returnTo : string).

(** What the bar reads and writes: the user of the auth context, the
    local storage, its menu flag, and what it did to the outside. *)
Record State := {
  contextUser : option JsObject;
  localStorage : gmap string string;
  isMenuOpen : bool;
  events : list Event
}.

(** The Auth0 side of a sign-out: [window.location.origin], and the
    error [logout] throws, if it throws, which may depend on the state
    of the session it is called in. *)
Record Auth0 := {
  origin : string;
  logoutThrows : State → option JsError
}.

Definition setUser (u : option JsObject) (s : State) : State :=
  {| contextUser := u; localStorage := localStorage s;
     isMenuOpen := isMenuOpen s; events := events s |}.

Definition removeItem (k : string) (s : State) : State :=
  {| contextUser := contextUser s; localStorage := delete k (localStorage s);
     isMenuOpen := isMenuOpen s; events := events s |}.

Definition setIsMenuOpen (b : bool) (s : State) : State :=
  {| contextUser := contextUser s; localStorage := localStorage s;
     isMenuOpen := b; events := events s |}.

Definition emit (ev : Event) (s : State) : State :=
  {| contextUser := contextUser s; localStorage := localStorage s;
     isMenuOpen := isMenuOpen s; events := events s ++ [ev] |}.

(** The state [logout] is called in: what [handleSignOut] has done
    before the call. *)
Definition before_logout (s : State) : State :=
  emit (SuccessToast "Signed out successfully")
    (removeItem "walletConnected"
       (removeItem "authSession" (removeItem "userType" (setUser None s)))).

(** [handleSignOut].  Of the statements of the [try] block only the
    call of [logout] can throw; what ran before it stays done. *)
Definition handleSignOut (auth0 : Auth0) (s : State) : State :=
  let called := emit (LogoutCall (origin auth0)) (before_logout s) in
  match logoutThrows auth0 (before_logout s) with
  | None => called
  | Some error =>
      emit (ErrorToast "Failed to sign out")
        (emit (ConsoleLog "Error signing out:" error) called)
  end.

(** The logout button of the mobile menu:
    [handleSignOut(); setIsMenuOpen(false)]. *)
Definition mobileLogout (auth0 : Auth0) (s : State) : State :=
  setIsMenuOpen false (handleSignOut auth0 s).

(** [isMenuOpen && contextUser], the condition of the mobile menu. *)
Definition menuShown (s : State) : bool :=
  isMenuOpen s && bool_decide (is_Some (contextUser s)).

Definition is_success (ev : Event) : bool :=
  match ev with SuccessToast _ => true | _ => false end.

Definition is_error (ev : Event) : bool :=
  match ev with ErrorToast _ => true | _ => false end.

End Navbar.

(** ** Scenarios *)

Module Scenario.

Definition degree : DocData := {[ "type" := VString "degree" ]}.

Definition u1 : Profile.t :=
  Profile.mk (Some "Ada") (Some ["c1"; "c2"]).

Definition u2 : Profile.t := Profile.mk (Some "Bob") (Some []).

Definition signed_in (userId : string) (service : string → Promise (option Profile.t))
    (docs : gmap string DocData) (faults : gmap string JsError) : Env :=
  {| user := Some {| uid := userId |}; userService := service;
     credentialDocs := docs; credentialFaults := faults |}.

(** Scenario A: [c1] is stored, [c2] is not. *)
Definition A : Env :=
  signed_in "u1" (λ _, Fulfilled (Some u1)) {[ "c1" := degree ]} ∅.

(** Scenario B: a profile without credentials. *)
Definition B : Env :=
  signed_in "u2" (λ _, Fulfilled (Some u2)) {[ "c1" := degree ]} ∅.

(** Scenario C: no profile for the user; the store is reachable or
    not. *)
Definition C (unreachable : bool) : Env :=
  signed_in "missing" (resolveProfile ∅ unreachable) ∅ ∅.

(** Scenario D: the read of [c1] times out, [c2] is stored. *)
Definition D : Env :=
  signed_in "u1" (λ _, Fulfilled (Some u1)) {[ "c2" := degree ]}
            {[ "c1" := TransientStoreError ]}.

(** A stored document that has an [id] field of its own. *)
Definition own_id : Env :=
  signed_in "u1" (λ _, Fulfilled (Some u1))
            {[ "c1" := {[ "id" := VString "zzz" ]} ]} ∅.

(** Nobody is signed in. *)
Definition signed_out : Env :=
  {| user := None; userService := λ _, Rejected TransientStoreError;
     credentialDocs := {[ "c1" := degree ]}; credentialFaults := ∅ |}.

(** A dashboard that already shows a profile and a credential. *)
Definition rendered : World :=
  {| userProfile := Some u2; activeTab := "received";
     credentials := [spread_with_id "c9" degree]; trace := [] |}.

(** A draft with type and name but no document attached. *)
Definition no_document : CredentialUpload.Draft :=
  {| CredentialUpload.credentialType := "degree";
     CredentialUpload.studentName := "Ada";
     CredentialUpload.document := None |}.

(** A draft with a document but no type chosen. *)
Definition no_type : CredentialUpload.Draft :=
  {| CredentialUpload.credentialType := "";
     CredentialUpload.studentName := "Ada";
     CredentialUpload.document := Some "degree.pdf" |}.

End Scenario.

(** More sample data. *)
Module Sample.

(** A profile that lists the same credential twice. *)
Definition twice : Profile.t :=
  Profile.mk (Some "Ada") (Some ["c1"; "c2"; "c1"]).

Definition listed_twice : Env :=
  Scenario.signed_in "u1" (λ _, Fulfilled (Some twice))
    {[ "c1" := Scenario.degree ]} ∅.

(** A profile whose credentials were all deleted from the store. *)
Definition all_deleted : Env :=
  Scenario.signed_in "u1" (λ _, Fulfilled (Some Scenario.u1)) ∅ ∅.

(** Both reads are rejected. *)
Definition both_fault : Env :=
  Scenario.signed_in "u1" (λ _, Fulfilled (Some Scenario.u1)) ∅
    {[ "c1" := TransientStoreError; "c2" := LookupError ]}.

Definition complete : CredentialUpload.Draft :=
  {| CredentialUpload.credentialType := "diploma";
     CredentialUpload.studentName := "Ada";
     CredentialUpload.document := Some "diploma.pdf" |}.

Definition roles : Navbar.UserTypes :=
  {| Navbar.STUDENT := "student"; Navbar.INSTITUTE := "institute" |}.

Definition ada : Navbar.JsObject :=
  {[ "name" := Some "Ada Lovelace"; "email" := Some "ada@example.org";
     "picture" := Some "ada.png"; "uid" := Some "u1" ]}.

Definition signed_in_bar : Navbar.State :=
  {| Navbar.contextUser := Some ada;
     Navbar.localStorage :=
       {[ "userType" := "student"; "authSession" := "s1"; "theme" := "dark" ]};
     Navbar.isMenuOpen := true;
     Navbar.events := [] |}.

Definition failing_logout : Navbar.Auth0 :=
  {| Navbar.origin := "https://portal.example";
     Navbar.logoutThrows := λ _, Some TransientStoreError |}.

End Sample.

(** * Properties *)

(** ** World updates *)

Lemma add_events_nil w : add_events [] w = w.
Proof. destruct w; unfold add_events; simpl. by rewrite app_nil_r. Qed.

Lemma add_events_app evs1 evs2 w :
  add_events evs2 (add_events evs1 w) = add_events (evs1 ++ evs2) w.
Proof. unfold add_events; simpl. by rewrite app_assoc. Qed.

Lemma add_events_set_profile evs p w :
  add_events evs (set_profile p w) = set_profile p (add_events evs w).
Proof. reflexivity. Qed.

Lemma toasts_add_events evs w :
  toasts (add_events evs w) = toasts w ++ filter is_toast evs.
Proof. unfold toasts; simpl. apply filter_app. Qed.

Lemma store_calls_add_events evs w :
  store_calls (add_events evs w) = store_calls w ++ filter is_store_call evs.
Proof. unfold store_calls; simpl. apply filter_app. Qed.

Lemma filter_is_toast_calls (ids : list string) :
  filter is_toast (map (CallGetDoc "credentials") ids) = [].
Proof.
  induction ids as [|id ids IH]; [done|].
  simpl. rewrite filter_cons_False; [done | simpl; tauto].
Qed.

Lemma filter_is_toast_fetches userId (ids : list string) :
  filter is_toast
    (CallGetUserProfile userId :: map (CallGetDoc "credentials") ids) = [].
Proof.
  rewrite filter_cons_False by (simpl; tauto). apply filter_is_toast_calls.
Qed.

(** ** Promises *)

Lemma filter_not_null_map {A B} (f : A → option B) (l : list A) :
  filter_not_null (map f l) = omap f l.
Proof.
  induction l as [|a l IH]; [done|].
  simpl. destruct (f a); simpl; by rewrite IH.
Qed.

Lemma settled_no_fault env id :
  credentialFaults env !! id = None →
  settled env id = Fulfilled (spread_with_id id <$> credentialDocs env !! id).
Proof.
  intros Hf. unfold settled, store_read. rewrite Hf. simpl.
  unfold toCredential, snap_exists. simpl.
  by destruct (credentialDocs env !! id).
Qed.

Lemma settled_fault env id e :
  credentialFaults env !! id = Some e → settled env id = Rejected e.
Proof. intros Hf. unfold settled, store_read. by rewrite Hf. Qed.

Lemma promise_all_no_fault env (ids : list string) :
  (∀ id, id ∈ ids → credentialFaults env !! id = None) →
  promise_all (map (settled env) ids)
  = Fulfilled (map (λ id, spread_with_id id <$> credentialDocs env !! id) ids).
Proof.
  induction ids as [|id ids IH]; intros Hno; [done|].
  simpl. rewrite settled_no_fault by (apply Hno; left).
  rewrite IH; [done|]. intros id' Hin. apply Hno. by right.
Qed.

Lemma promise_all_fault env (ids : list string) id :
  id ∈ ids → is_Some (credentialFaults env !! id) →
  ∃ id' e, id' ∈ ids ∧ credentialFaults env !! id' = Some e ∧
           promise_all (map (settled env) ids) = Rejected e.
Proof.
  induction ids as [|i ids IH]; intros Hin Hf; [by apply elem_of_nil in Hin|].
  simpl. destruct (credentialFaults env !! i) as [e|] eqn:Hi.
  - exists i, e. rewrite (settled_fault _ _ _ Hi). split; [left|done].
  - rewrite settled_no_fault by done.
    apply elem_of_cons in Hin as [->|Hin].
    { rewrite Hi in Hf. by destruct Hf. }
    destruct (IH Hin Hf) as (id' & e & Hin' & Hf' & ->).
    exists id', e. split; [by right|done].
Qed.

Lemma promise_all_rejected env (ids : list string) e :
  promise_all (map (settled env) ids) = Rejected e →
  ∃ id, id ∈ ids ∧ credentialFaults env !! id = Some e.
Proof.
  induction ids as [|i ids IH]; [done|].
  simpl. destruct (credentialFaults env !! i) as [e'|] eqn:Hi.
  - rewrite (settled_fault _ _ _ Hi). intros [= ->]. exists i. split; [left|done].
  - rewrite settled_no_fault by done.
    destruct (promise_all (map (settled env) ids)) eqn:Hall; [done|].
    intros [= ->]. destruct (IH eq_refl) as (id & Hin & Hf).
    exists id. split; [by right|done].
Qed.

(** ** The aggregation *)

(** Every lookup is issued, in the order of the ids, whatever the
    store answers; the promises are those of the ids. *)
Lemma map_calls_credentialPromise env ids w :
  map_calls (credentialPromise env) ids w
  = (add_events (map (CallGetDoc "credentials") ids) w,
     Fulfilled (map (settled env) ids)).
Proof.
  revert w. induction ids as [|id ids IH]; intros w.
  - simpl. unfold ret. by rewrite add_events_nil.
  - simpl. unfold bind at 1. unfold credentialPromise, getDoc, bind, emit, ret.
    simpl. fold (settled env id).
    change (map_calls (λ credId, _) ids) with (map_calls (credentialPromise env) ids).
    rewrite IH. by rewrite add_events_app.
Qed.

Lemma resolveCredentials_eq env ids w :
  resolveCredentials env ids w
  = (add_events (map (CallGetDoc "credentials") ids) w,
     promise_all (map (settled env) ids)).
Proof.
  unfold resolveCredentials, bind. by rewrite map_calls_credentialPromise.
Qed.

(** ** One run of the effect, case by case *)

Section Run.

Variable env : Env.
Variable u : User.
Hypothesis signed_in : user env = Some u.

Lemma run_profile_rejected e w :
  userService env (uid u) = Rejected e →
  run env w
  = add_events (CallGetUserProfile (uid u) :: failure_events e) w.
Proof.
  intros Hp. unfold run, fetchUserData. rewrite signed_in.
  unfold try_catch, fetchUserData_try, getUserProfile, bind, emit, ret, await.
  rewrite Hp. simpl.
  unfold fetchUserData_catch, console_error, toast_error, bind, emit. simpl.
  by rewrite !add_events_app.
Qed.

Lemma try_profile_fulfilled profile w :
  userService env (uid u) = Fulfilled profile →
  fetchUserData_try env u w
  = (if has_credentials profile then
       fetchedCredentials <~ resolveCredentials env (credential_ids profile) ;;
       setCredentials (filter_not_null fetchedCredentials)
     else ret tt)
      (set_profile profile (add_events [CallGetUserProfile (uid u)] w)).
Proof.
  intros Hp.
  unfold fetchUserData_try, getUserProfile, bind, emit, ret, await,
    setUserProfile.
  by rewrite Hp.
Qed.

Lemma run_no_credentials profile w :
  userService env (uid u) = Fulfilled profile →
  has_credentials profile = false →
  run env w
  = set_profile profile (add_events [CallGetUserProfile (uid u)] w).
Proof.
  intros Hp Hc. unfold run, fetchUserData. rewrite signed_in.
  unfold try_catch. rewrite (try_profile_fulfilled _ _ Hp), Hc. done.
Qed.

Lemma run_all_fulfilled profile fetched w :
  userService env (uid u) = Fulfilled profile →
  has_credentials profile = true →
  promise_all (map (settled env) (credential_ids profile))
    = Fulfilled fetched →
  run env w
  = set_credentials (filter_not_null fetched)
      (set_profile profile
         (add_events (CallGetUserProfile (uid u)
                      :: map (CallGetDoc "credentials")
                             (credential_ids profile)) w)).
Proof.
  intros Hp Hc Hall. unfold run, fetchUserData. rewrite signed_in.
  unfold try_catch. rewrite (try_profile_fulfilled _ _ Hp), Hc.
  unfold bind. rewrite resolveCredentials_eq, Hall. simpl.
  by rewrite add_events_set_profile, add_events_app.
Qed.

Lemma run_lookup_rejected profile e w :
  userService env (uid u) = Fulfilled profile →
  has_credentials profile = true →
  promise_all (map (settled env) (credential_ids profile)) = Rejected e →
  run env w
  = set_profile profile
      (add_events (CallGetUserProfile (uid u)
                   :: map (CallGetDoc "credentials")
                          (credential_ids profile)
                   ++ failure_events e) w).
Proof.
  intros Hp Hc Hall. unfold run, fetchUserData. rewrite signed_in.
  unfold try_catch. rewrite (try_profile_fulfilled _ _ Hp), Hc.
  unfold bind. rewrite resolveCredentials_eq, Hall.
  unfold fetchUserData_catch, console_error, toast_error, bind, emit. simpl.
  by rewrite !add_events_set_profile, !add_events_app.
Qed.

End Run.

Lemma run_signed_out env w :
  user env = None → fetchUserData env w = (w, Fulfilled tt).
Proof. intros Hu. unfold fetchUserData. by rewrite Hu. Qed.

(** A profile that resolves to null: the guest state, and nothing else. *)
Lemma run_profile_null env u w :
  user env = Some u →
  userService env (uid u) = Fulfilled None →
  run env w = set_profile None (add_events [CallGetUserProfile (uid u)] w).
Proof. intros Hu Hp. by apply (run_no_credentials env u Hu None w Hp). Qed.

Lemma has_credentials_ids p ids :
  Profile.credentials p = Some ids → ids ≠ [] →
  has_credentials (Some p) = true ∧ credential_ids (Some p) = ids.
Proof.
  intros Hc Hne. unfold has_credentials, credential_ids. rewrite Hc.
  by destruct ids.
Qed.

Lemma toasts_failure w evs e :
  filter is_toast evs = [] →
  toasts (add_events (evs ++ failure_events e) w)
  = toasts w ++ [ToastError "Failed to load credentials"].
Proof.
  intros Hevs. rewrite toasts_add_events, filter_app, Hevs. done.
Qed.

(** ** Runs with and without a store fault *)

Lemma run_no_fault env u p ids w :
  user env = Some u →
  userService env (uid u) = Fulfilled (Some p) →
  Profile.credentials p = Some ids → ids ≠ [] →
  (∀ id, id ∈ ids → credentialFaults env !! id = None) →
  run env w
  = set_credentials (existing_records env ids)
      (set_profile (Some p)
         (add_events (CallGetUserProfile (uid u)
                      :: map (CallGetDoc "credentials") ids) w)).
Proof.
  intros Hu Hp Hc Hne Hno.
  destruct (has_credentials_ids _ _ Hc Hne) as [Hhas Hids].
  rewrite (run_all_fulfilled env u Hu (Some p)
             (map (λ id, spread_with_id id <$> credentialDocs env !! id) ids)
             w Hp Hhas).
  - by rewrite Hids, filter_not_null_map.
  - rewrite Hids. by apply promise_all_no_fault.
Qed.

Lemma run_fault env u p ids id w :
  user env = Some u →
  userService env (uid u) = Fulfilled (Some p) →
  Profile.credentials p = Some ids →
  id ∈ ids → is_Some (credentialFaults env !! id) →
  ∃ id' e, id' ∈ ids ∧ credentialFaults env !! id' = Some e ∧
    promise_all (map (settled env) ids) = Rejected e ∧
    run env w
    = set_profile (Some p)
        (add_events (CallGetUserProfile (uid u)
                     :: map (CallGetDoc "credentials") ids
                     ++ failure_events e) w).
Proof.
  intros Hu Hp Hc Hin Hf.
  assert (ids ≠ []) as Hne by (intros ->; by apply elem_of_nil in Hin).
  destruct (has_credentials_ids _ _ Hc Hne) as [Hhas Hids].
  destruct (promise_all_fault env ids id Hin Hf) as (id' & e & Hin' & Hf' & Hall).
  exists id', e. repeat split; [done..|].
  rewrite (run_lookup_rejected env u Hu (Some p) e w Hp Hhas); rewrite Hids; done.
Qed.

(** * The claims *)

(** C1 (as stated, refuted).  In scenario D the read of [c1] is
    rejected by the store and [c2] is stored.  All-settle semantics
    would return the record of [c2]; the aggregation is rejected as a
    whole and the dashboard shows no credential. *)
Lemma C1_fail_fast_counterexample :
  all_settle_spec Scenario.D ["c1"; "c2"]
    = [spread_with_id "c2" Scenario.degree] ∧
  (resolveCredentials Scenario.D ["c1"; "c2"] initial_world).2
    = Rejected TransientStoreError ∧
  credentials (run Scenario.D initial_world)
    ≠ all_settle_spec Scenario.D ["c1"; "c2"].
Proof. vm_compute. repeat split; discriminate. Qed.

(** C1 (amended).  Every lookup of the id list is issued.  An id whose
    document is absent is dropped silently: when the store faults on no
    id, the credentials state becomes the records of the ids that
    exist, and no notification is emitted.  A store fault is not
    treated like that, because [Promise.all] is fail-fast: when the
    store rejects the read of some id, the whole aggregation is
    rejected with the error of a faulting id, no record of the other
    ids is returned, the credentials state keeps the value it had, and
    the single [catch] block emits one error notification. *)
Theorem C1_store_fault_rejects_aggregate env u p (ids : list string) w :
  user env = Some u →
  userService env (uid u) = Fulfilled (Some p) →
  Profile.credentials p = Some ids →
  ids ≠ [] →
  ((∀ id, id ∈ ids → credentialFaults env !! id = None) →
   credentials (run env w) = existing_records env ids ∧
   toasts (run env w) = toasts w) ∧
  (∀ id, id ∈ ids → is_Some (credentialFaults env !! id) →
   ∃ id' e, id' ∈ ids ∧ credentialFaults env !! id' = Some e ∧
     resolveCredentials env ids w
     = (add_events (map (CallGetDoc "credentials") ids) w, Rejected e) ∧
     trace (run env w)
     = trace w ++ CallGetUserProfile (uid u)
               :: map (CallGetDoc "credentials") ids ++ failure_events e ∧
     credentials (run env w) = credentials w ∧
     toasts (run env w)
     = toasts w ++ [ToastError "Failed to load credentials"]).
Proof.
  intros Hu Hp Hc Hne. split.
  - intros Hno. rewrite (run_no_fault env u p ids w Hu Hp Hc Hne Hno).
    split; [done|].
    change (toasts (set_credentials ?c (set_profile ?q ?w'))) with (toasts w').
    by rewrite toasts_add_events, filter_is_toast_fetches, app_nil_r.
  - intros id Hin Hf.
    destruct (run_fault env u p ids id w Hu Hp Hc Hin Hf)
      as (id' & e & Hin' & Hf' & Hall & Hrun).
    exists id', e. split; [done|]. split; [done|].
    split; [by rewrite resolveCredentials_eq, Hall|].
    rewrite Hrun. split; [done|]. split; [done|].
    change (toasts (set_profile (Some p) ?w')) with (toasts w').
    apply (toasts_failure w (_ :: _) e), filter_is_toast_fetches.
Qed.

Lemma C1_store_fault_rejects_aggregate_witness :
  ((∀ id, id ∈ ["c1"; "c2"] → credentialFaults Scenario.D !! id = None) →
   credentials (run Scenario.D initial_world)
     = existing_records Scenario.D ["c1"; "c2"] ∧
   toasts (run Scenario.D initial_world) = toasts initial_world) ∧
  (∀ id, id ∈ ["c1"; "c2"] → is_Some (credentialFaults Scenario.D !! id) →
   ∃ id' e, id' ∈ ["c1"; "c2"] ∧
     credentialFaults Scenario.D !! id' = Some e ∧
     resolveCredentials Scenario.D ["c1"; "c2"] initial_world
     = (add_events (map (CallGetDoc "credentials") ["c1"; "c2"])
          initial_world, Rejected e) ∧
     trace (run Scenario.D initial_world)
     = trace initial_world ++ CallGetUserProfile "u1"
         :: map (CallGetDoc "credentials") ["c1"; "c2"] ++ failure_events e ∧
     credentials (run Scenario.D initial_world) = credentials initial_world ∧
     toasts (run Scenario.D initial_world)
     = toasts initial_world ++ [ToastError "Failed to load credentials"]).
Proof.
  apply (C1_store_fault_rejects_aggregate Scenario.D {| uid := "u1" |}
           Scenario.u1 ["c1"; "c2"] initial_world).
  - reflexivity.
  - reflexivity.
  - reflexivity.
  - discriminate.
Defined.

(** C2 (as stated, refuted).  In scenario C the user has no profile.
    With the store reachable the resolution fails with
    [ProfileNotFound], with the store unreachable it fails with the
    transient error; the dashboard ends in the same visible state both
    times, with the same error notification. *)
Lemma C2_failures_conflated_counterexample :
  userService (Scenario.C false) "missing" = Rejected ProfileNotFound ∧
  userService (Scenario.C true) "missing" = Rejected TransientStoreError ∧
  visible (run (Scenario.C false) initial_world)
    = visible (run (Scenario.C true) initial_world) ∧
  toasts (run (Scenario.C false) initial_world)
    = [ToastError "Failed to load credentials"].
Proof. vm_compute. repeat split. Qed.

(** C2 (amended).  Whatever the kind of the error a profile resolution
    fails with, the run takes the one [catch] block: the profile and
    the credentials keep the values they had (on a fresh dashboard, the
    guest state), no credential is looked up, and the same single error
    notification is emitted. *)
Theorem C2_profile_failure_single_path env u e w :
  user env = Some u →
  userService env (uid u) = Rejected e →
  trace (run env w)
    = trace w ++ CallGetUserProfile (uid u) :: failure_events e ∧
  visible (run env w)
    = (userProfile w, credentials w,
       toasts w ++ [ToastError "Failed to load credentials"]).
Proof.
  intros Hu Hp. rewrite (run_profile_rejected env u Hu e w Hp).
  split; [done|]. unfold visible. f_equal.
  apply (toasts_failure w [_] e). simpl.
  by rewrite filter_cons_False by (simpl; tauto).
Qed.

Lemma C2_profile_failure_single_path_witness :
  trace (run (Scenario.C false) initial_world)
    = trace initial_world
      ++ CallGetUserProfile "missing" :: failure_events ProfileNotFound ∧
  visible (run (Scenario.C false) initial_world)
    = (userProfile initial_world, credentials initial_world,
       toasts initial_world ++ [ToastError "Failed to load credentials"]).
Proof.
  apply (C2_profile_failure_single_path (Scenario.C false)
           {| uid := "missing" |} ProfileNotFound initial_world).
  - reflexivity.
  - reflexivity.
Defined.

(** C3 (as stated, refuted).  A draft with a type and a name but no
    attached document is accepted: the form moves from step 1 to the
    success step. *)
Lemma C3_missing_document_accepted_counterexample :
  CredentialUpload.document Scenario.no_document = None ∧
  CredentialUpload.step CredentialUpload.initial = 1 ∧
  CredentialUpload.step
    (CredentialUpload.submit Scenario.no_document CredentialUpload.initial)
  = 2.
Proof. vm_compute. repeat split. Qed.

(** C3 (amended).  The only check is the one the form makes before the
    handler runs: with an empty credential type or an empty student
    name the submit event is withheld, [handleSubmit] does not run and
    the state stays as it was, the empty required controls being the
    ones reported.  [handleSubmit] itself checks nothing and produces
    no validation error: whenever it runs, with or without a document,
    it ends in the success step. *)
Theorem C3_required_controls_block_submit
    (d : CredentialUpload.Draft) (s : CredentialUpload.State) :
  CredentialUpload.credentialType d = ""
  ∨ CredentialUpload.studentName d = "" →
  CredentialUpload.submit d s = s ∧
  CredentialUpload.invalid_fields d ≠ [] ∧
  (∀ f, f ∈ CredentialUpload.invalid_fields d →
        f ≠ CredentialUpload.DocumentField) ∧
  (∀ d' s', CredentialUpload.credentialType d' ≠ "" →
            CredentialUpload.studentName d' ≠ "" →
            CredentialUpload.submit d' s' = CredentialUpload.handleSubmit s') ∧
  (∀ s', CredentialUpload.step (CredentialUpload.handleSubmit s') = 2 ∧
         CredentialUpload.uploading (CredentialUpload.handleSubmit s') = false).
Proof.
  intros Hmissing.
  assert (∀ d' f, f ∈ CredentialUpload.invalid_fields d' →
                  f ≠ CredentialUpload.DocumentField) as Hdoc.
  { intros d' f Hin ->. unfold CredentialUpload.invalid_fields in Hin.
    apply list_elem_of_filter in Hin as [Hreq _]. simpl in Hreq. done. }
  assert (CredentialUpload.invalid_fields d ≠ []) as Hne.
  { unfold CredentialUpload.invalid_fields.
    destruct Hmissing as [Ht|Hn].
    - rewrite filter_cons_True; [done|]. simpl. by rewrite bool_decide_eq_true_2.
    - intros Hnil.
      assert (CredentialUpload.NameField ∈
                filter (λ f, CredentialUpload.required f
                             && CredentialUpload.value_missing d f = true)
                  [CredentialUpload.TypeField; CredentialUpload.NameField;
                   CredentialUpload.DocumentField]) as Hin.
      { apply list_elem_of_filter. split.
        - simpl. by rewrite bool_decide_eq_true_2.
        - right; left. }
      rewrite Hnil in Hin. by apply elem_of_nil in Hin. }
  split.
  { unfold CredentialUpload.submit.
    by destruct (CredentialUpload.invalid_fields d). }
  split; [done|]. split; [by apply Hdoc|]. split; [|done].
  intros d' s' Ht Hn. unfold CredentialUpload.submit.
  destruct (CredentialUpload.invalid_fields d') as [|f l] eqn:Hinv; [done|].
  exfalso.
  assert (f ∈ CredentialUpload.invalid_fields d') as Hin by (rewrite Hinv; left).
  unfold CredentialUpload.invalid_fields in Hin.
  apply list_elem_of_filter in Hin as [Hreq _].
  destruct f; simpl in Hreq.
  - by rewrite bool_decide_eq_false_2 in Hreq.
  - by rewrite bool_decide_eq_false_2 in Hreq.
  - done.
Qed.

Lemma C3_required_controls_block_submit_witness :
  CredentialUpload.submit Scenario.no_type CredentialUpload.initial
  = CredentialUpload.initial ∧
  CredentialUpload.invalid_fields Scenario.no_type ≠ [] ∧
  (∀ f, f ∈ CredentialUpload.invalid_fields Scenario.no_type →
        f ≠ CredentialUpload.DocumentField) ∧
  (∀ d' s', CredentialUpload.credentialType d' ≠ "" →
            CredentialUpload.studentName d' ≠ "" →
            CredentialUpload.submit d' s' = CredentialUpload.handleSubmit s') ∧
  (∀ s', CredentialUpload.step (CredentialUpload.handleSubmit s') = 2 ∧
         CredentialUpload.uploading (CredentialUpload.handleSubmit s') = false).
Proof.
  apply (C3_required_controls_block_submit Scenario.no_type
           CredentialUpload.initial).
  left. reflexivity.
Defined.

(** C4 (as stated, refuted).  In scenario D the profile is fetched and
    then the read of [c1] fails with the transient error.  The run ends
    in the [catch] block, yet the profile field no longer holds the
    value it had before the run. *)
Lemma C4_profile_replaced_counterexample :
  (fetchUserData_try Scenario.D {| uid := "u1" |} Scenario.rendered).2
    = Rejected TransientStoreError ∧
  userProfile Scenario.rendered = Some Scenario.u2 ∧
  userProfile (run Scenario.D Scenario.rendered) = Some Scenario.u1 ∧
  userProfile (run Scenario.D Scenario.rendered)
    ≠ userProfile Scenario.rendered.
Proof. vm_compute. repeat split. discriminate. Qed.

(** C4 (amended).  When the [try] block of a run fails, the credentials
    state and the active tab keep the values they had and exactly one
    error notification is added.  The profile state keeps its value
    when it is the profile fetch that failed; when the failure comes
    from a credential lookup, the profile was fetched and stored before
    it, and the profile state holds the fetched profile. *)
Theorem C4_state_after_failed_run env u e w :
  user env = Some u →
  (fetchUserData_try env u w).2 = Rejected e →
  credentials (run env w) = credentials w ∧
  activeTab (run env w) = activeTab w ∧
  toasts (run env w) = toasts w ++ [ToastError "Failed to load credentials"] ∧
  ((userService env (uid u) = Rejected e ∧
    userProfile (run env w) = userProfile w)
   ∨ (∃ profile, userService env (uid u) = Fulfilled profile ∧
                 userProfile (run env w) = profile)).
Proof.
  intros Hu Hfail.
  destruct (userService env (uid u)) as [profile|e'] eqn:Hp.
  - rewrite (try_profile_fulfilled env u profile w Hp) in Hfail.
    destruct (has_credentials profile) eqn:Hhas; [|done].
    unfold bind in Hfail. rewrite resolveCredentials_eq in Hfail.
    destruct (promise_all (map (settled env) (credential_ids profile)))
      as [fetched|e''] eqn:Hall; [done|].
    simpl in Hfail. injection Hfail as ->.
    rewrite (run_lookup_rejected env u Hu profile e w Hp Hhas Hall).
    split; [done|]. split; [done|]. split; [|right; by exists profile].
    change (toasts (set_profile profile ?w')) with (toasts w').
    apply (toasts_failure w (_ :: _) e), filter_is_toast_fetches.
  - assert (e' = e) as ->.
    { revert Hfail.
      unfold fetchUserData_try, getUserProfile, bind, emit, ret, await.
      rewrite Hp. simpl. by intros [= ->]. }
    rewrite (run_profile_rejected env u Hu e w Hp).
    split; [done|]. split; [done|]. split; [|by left].
    apply (toasts_failure w [_] e). simpl.
    by rewrite filter_cons_False by (simpl; tauto).
Qed.

Lemma C4_state_after_failed_run_witness :
  credentials (run Scenario.D Scenario.rendered)
    = credentials Scenario.rendered ∧
  activeTab (run Scenario.D Scenario.rendered) = activeTab Scenario.rendered ∧
  toasts (run Scenario.D Scenario.rendered)
    = toasts Scenario.rendered ++ [ToastError "Failed to load credentials"] ∧
  ((userService Scenario.D (uid {| uid := "u1" |})
      = Rejected TransientStoreError ∧
    userProfile (run Scenario.D Scenario.rendered)
      = userProfile Scenario.rendered)
   ∨ (∃ profile,
        userService Scenario.D (uid {| uid := "u1" |}) = Fulfilled profile ∧
        userProfile (run Scenario.D Scenario.rendered) = profile)).
Proof.
  apply (C4_state_after_failed_run Scenario.D {| uid := "u1" |}
           TransientStoreError Scenario.rendered).
  - reflexivity.
  - vm_compute. reflexivity.
Defined.



(** ** The records of an id list *)

Lemma credential_id_spread id data :
  data !! "id" = None →
  credential_id (spread_with_id id data) = Some (VString id).
Proof.
  intros Hnone. unfold credential_id, spread_with_id.
  rewrite lookup_union_r by done. apply lookup_singleton_eq.
Qed.

Lemma credential_id_spread_own id data v :
  data !! "id" = Some v → credential_id (spread_with_id id data) = Some v.
Proof.
  intros Hown. unfold credential_id, spread_with_id.
  by apply lookup_union_Some_l.
Qed.

Lemma elem_of_existing_records env (ids : list string) (c : Credential) :
  c ∈ existing_records env ids ↔
  ∃ id data, id ∈ ids ∧ credentialDocs env !! id = Some data ∧
             c = spread_with_id id data.
Proof.
  unfold existing_records. rewrite list_elem_of_omap. split.
  - intros (id & Hin & Hc).
    destruct (credentialDocs env !! id) as [data|] eqn:Hd; [|done].
    simpl in Hc. injection Hc as <-. by exists id, data.
  - intros (id & data & Hin & Hd & ->). exists id. split; [done|].
    by rewrite Hd.
Qed.

Lemma existing_records_ids env (ids : list string) :
  (∀ id data, id ∈ ids → credentialDocs env !! id = Some data →
              data !! "id" = None) →
  omap credential_id (existing_records env ids)
  = VString <$> filter (λ id, is_Some (credentialDocs env !! id)) ids.
Proof.
  unfold existing_records.
  induction ids as [|id ids IH]; intros Hown; [done|].
  simpl. destruct (credentialDocs env !! id) as [data|] eqn:Hd; simpl.
  - rewrite filter_cons_True by (by rewrite Hd).
    rewrite (credential_id_spread id data) by (eapply Hown; [left|done]).
    simpl. f_equal. apply IH. intros id' data' Hin. apply Hown. by right.
  - rewrite filter_cons_False by (rewrite Hd; by intros [? ?]).
    apply IH. intros id' data' Hin. apply Hown. by right.
Qed.

(** C6 (as stated, refuted).  The store holds for [c1] a document with
    a field [id] of its own, which the spread puts over the id of the
    snapshot: the record that is returned carries an id that is none of
    the input ids. *)
Lemma C6_stored_id_wins_counterexample :
  ¬ (∀ c, c ∈ credentials (run Scenario.own_id initial_world) →
          ∃ id, id ∈ ["c1"; "c2"] ∧ credential_id c = Some (VString id)).
Proof.
  intros Hclaim.
  assert (credentials (run Scenario.own_id initial_world)
          = [ {[ "id" := VString "zzz" ]} ]) as Hrun
    by (vm_compute; reflexivity).
  rewrite Hrun in Hclaim.
  destruct (Hclaim {[ "id" := VString "zzz" ]}) as (id & Hin & Hid); [left|].
  vm_compute in Hid. injection Hid as <-.
  apply elem_of_cons in Hin as [Heq|Hin]; [discriminate|].
  apply elem_of_cons in Hin as [Heq|Hin]; [discriminate|].
  by apply elem_of_nil in Hin.
Qed.

(** C6 (amended).  When the store reads no id of the list with a fault,
    every lookup is issued, the aggregation is fulfilled, and what the
    filter keeps is exactly the records of the ids whose document
    exists, in the order of the id list, each record being the stored
    fields together with the id.  The id field of a record is the id it
    was looked up under whenever the stored document has no field named
    [id]; then the ids of the output are the input ids that exist, in
    input order. *)
Theorem C6_existing_records_in_input_order env (ids : list string) w :
  (∀ id, id ∈ ids → credentialFaults env !! id = None) →
  ∃ fetched,
    resolveCredentials env ids w
    = (add_events (map (CallGetDoc "credentials") ids) w, Fulfilled fetched) ∧
    filter_not_null fetched = existing_records env ids ∧
    (∀ c, c ∈ existing_records env ids ↔
          ∃ id data, id ∈ ids ∧ credentialDocs env !! id = Some data ∧
                     c = spread_with_id id data) ∧
    (∀ id data, data !! "id" = None →
                credential_id (spread_with_id id data) = Some (VString id)) ∧
    ((∀ id data, id ∈ ids → credentialDocs env !! id = Some data →
                 data !! "id" = None) →
     omap credential_id (existing_records env ids)
     = VString <$> filter (λ id, is_Some (credentialDocs env !! id)) ids).
Proof.
  intros Hno.
  exists (map (λ id, spread_with_id id <$> credentialDocs env !! id) ids).
  split; [by rewrite resolveCredentials_eq, promise_all_no_fault|].
  split; [apply filter_not_null_map|].
  split; [apply elem_of_existing_records|].
  split; [apply credential_id_spread|apply existing_records_ids].
Qed.

Lemma C6_existing_records_in_input_order_witness :
  ∃ fetched,
    resolveCredentials Scenario.A ["c1"; "c2"] initial_world
    = (add_events (map (CallGetDoc "credentials") ["c1"; "c2"]) initial_world,
       Fulfilled fetched) ∧
    filter_not_null fetched = existing_records Scenario.A ["c1"; "c2"] ∧
    (∀ c, c ∈ existing_records Scenario.A ["c1"; "c2"] ↔
          ∃ id data, id ∈ ["c1"; "c2"] ∧
                     credentialDocs Scenario.A !! id = Some data ∧
                     c = spread_with_id id data) ∧
    (∀ id data, data !! "id" = None →
                credential_id (spread_with_id id data) = Some (VString id)) ∧
    ((∀ id data, id ∈ ["c1"; "c2"] →
                 credentialDocs Scenario.A !! id = Some data →
                 data !! "id" = None) →
     omap credential_id (existing_records Scenario.A ["c1"; "c2"])
     = VString <$> filter (λ id, is_Some (credentialDocs Scenario.A !! id))
                          ["c1"; "c2"]).
Proof.
  apply (C6_existing_records_in_input_order Scenario.A ["c1"; "c2"]
           initial_world).
  intros id _. reflexivity.
Defined.

(** C7.  Scenario B: for a profile whose credential id list is empty,
    the aggregation over the empty list is fulfilled with the empty
    sequence without touching the world, and a run of the effect
    issues the profile fetch and nothing else: no lookup, no error, no
    notification, and a credentials state that was empty is still
    empty. *)
Theorem C7_empty_id_list env u p w :
  user env = Some u →
  userService env (uid u) = Fulfilled (Some p) →
  Profile.credentials p = Some [] →
  credentials w = [] →
  resolveCredentials env [] w = (w, Fulfilled []) ∧
  fetchUserData env w
    = (set_profile (Some p) (add_events [CallGetUserProfile (uid u)] w),
       Fulfilled tt) ∧
  trace (run env w) = trace w ++ [CallGetUserProfile (uid u)] ∧
  credentials (run env w) = [] ∧
  toasts (run env w) = toasts w.
Proof.
  intros Hu Hp Hc Hw.
  assert (has_credentials (Some p) = false) as Hhas
    by (unfold has_credentials; by rewrite Hc).
  split; [by rewrite resolveCredentials_eq, add_events_nil|].
  split.
  { unfold fetchUserData. rewrite Hu. unfold try_catch.
    by rewrite (try_profile_fulfilled env u (Some p) w Hp), Hhas. }
  rewrite (run_no_credentials env u Hu (Some p) w Hp Hhas).
  split; [done|]. split; [done|].
  change (toasts (set_profile ?q ?w')) with (toasts w').
  rewrite toasts_add_events. simpl.
  rewrite filter_cons_False by (simpl; tauto). apply app_nil_r.
Qed.

Lemma C7_empty_id_list_witness :
  resolveCredentials Scenario.B [] initial_world
    = (initial_world, Fulfilled []) ∧
  fetchUserData Scenario.B initial_world
    = (set_profile (Some Scenario.u2)
         (add_events [CallGetUserProfile "u2"] initial_world),
       Fulfilled tt) ∧
  trace (run Scenario.B initial_world)
    = trace initial_world ++ [CallGetUserProfile "u2"] ∧
  credentials (run Scenario.B initial_world) = [] ∧
  toasts (run Scenario.B initial_world) = toasts initial_world.
Proof.
  apply (C7_empty_id_list Scenario.B {| uid := "u2" |} Scenario.u2
           initial_world); reflexivity.
Defined.

(** ** Running twice *)

(** What a run writes into the two state fields is decided by the
    environment alone: each field is either overwritten with a value
    that does not depend on the world, or left as it was. *)
Lemma run_state_from_env env :
  ∃ (newProfile : option (option Profile.t))
    (newCredentials : option (list Credential)),
  ∀ w, userProfile (run env w) = default (userProfile w) newProfile ∧
       credentials (run env w) = default (credentials w) newCredentials.
Proof.
  destruct (user env) as [u|] eqn:Hu.
  - destruct (userService env (uid u)) as [profile|e] eqn:Hp.
    + destruct (has_credentials profile) eqn:Hhas.
      * destruct (promise_all (map (settled env) (credential_ids profile)))
          as [fetched|e] eqn:Hall.
        -- exists (Some profile), (Some (filter_not_null fetched)). intros w.
           by rewrite (run_all_fulfilled env u Hu profile fetched w Hp Hhas Hall).
        -- exists (Some profile), None. intros w.
           by rewrite (run_lookup_rejected env u Hu profile e w Hp Hhas Hall).
      * exists (Some profile), None. intros w.
        by rewrite (run_no_credentials env u Hu profile w Hp Hhas).
    + exists None, None. intros w.
      by rewrite (run_profile_rejected env u Hu e w Hp).
  - exists None, None. intros w. unfold run.
    by rewrite (run_signed_out env w Hu).
Qed.

(** C8.  Against an unchanged store the aggregation is deterministic
    and idempotent: the outcome of the lookups of an id list does not
    depend on the world they run in, in particular not on a previous
    run, and a second run of the effect leaves the profile, the
    credentials and so the resolved ids as the first run left them. *)
Theorem C8_aggregation_idempotent env (ids : list string) w1 w2 :
  (resolveCredentials env ids w1).2 = (resolveCredentials env ids w2).2 ∧
  (resolveCredentials env ids (resolveCredentials env ids w1).1).2
    = (resolveCredentials env ids w1).2 ∧
  credentials (run env (run env w1)) = credentials (run env w1) ∧
  userProfile (run env (run env w1)) = userProfile (run env w1) ∧
  omap credential_id (credentials (run env (run env w1)))
    = omap credential_id (credentials (run env w1)).
Proof.
  split; [by rewrite !resolveCredentials_eq|].
  split; [by rewrite !resolveCredentials_eq|].
  destruct (run_state_from_env env) as (np & nc & Hstate).
  assert (credentials (run env (run env w1)) = credentials (run env w1)) as Hc.
  { destruct (Hstate (run env w1)) as [_ ->]. destruct (Hstate w1) as [_ Hc1].
    destruct nc; [by rewrite Hc1|done]. }
  split; [done|]. split; [|by rewrite Hc].
  destruct (Hstate (run env w1)) as [-> _]. destruct (Hstate w1) as [Hp1 _].
  destruct np; [by rewrite Hp1|done].
Qed.

(** C9 (as stated, refuted).  A dashboard shows the profile and a
    credential of a user, and the user of the auth context becomes
    null.  The run does nothing, so the dashboard is not left in the
    signed-out default state: the profile and the credential of the
    earlier user stay. *)
Lemma C9_rendered_state_stays_counterexample :
  user Scenario.signed_out = None ∧
  userProfile (run Scenario.signed_out Scenario.rendered)
    = Some Scenario.u2 ∧
  credentials (run Scenario.signed_out Scenario.rendered)
    = [spread_with_id "c9" Scenario.degree] ∧
  ¬ (userProfile (run Scenario.signed_out Scenario.rendered) = None ∧
     credentials (run Scenario.signed_out Scenario.rendered) = []).
Proof.
  split; [reflexivity|]. split; [reflexivity|]. split; [reflexivity|].
  intros [Hprofile _]. discriminate Hprofile.
Qed.

(** C9 (amended).  With no authenticated user the effect does nothing
    at all: no profile fetch, no lookup, no console message, no
    notification, and the world is returned as it was, so nothing is
    reset either; a dashboard that has just been mounted stays in its
    default state, profile null and credentials empty. *)
Theorem C9_signed_out_is_not_an_error env w :
  user env = None →
  fetchUserData env w = (w, Fulfilled tt) ∧
  run env w = w ∧
  store_calls (run env w) = store_calls w ∧
  toasts (run env w) = toasts w ∧
  userProfile (run env initial_world) = None ∧
  credentials (run env initial_world) = [] ∧
  trace (run env initial_world) = [].
Proof.
  intros Hu. unfold run. rewrite !(run_signed_out env _ Hu). by repeat split.
Qed.

Lemma C9_signed_out_is_not_an_error_witness :
  fetchUserData Scenario.signed_out Scenario.rendered
    = (Scenario.rendered, Fulfilled tt) ∧
  run Scenario.signed_out Scenario.rendered = Scenario.rendered ∧
  store_calls (run Scenario.signed_out Scenario.rendered)
    = store_calls Scenario.rendered ∧
  toasts (run Scenario.signed_out Scenario.rendered)
    = toasts Scenario.rendered ∧
  userProfile (run Scenario.signed_out initial_world) = None ∧
  credentials (run Scenario.signed_out initial_world) = [] ∧
  trace (run Scenario.signed_out initial_world) = [].
Proof.
  apply (C9_signed_out_is_not_an_error Scenario.signed_out Scenario.rendered).
  reflexivity.
Defined.

(** * Further properties *)

(** ** The dashboard between runs *)

Lemma filter_is_store_call_calls (ids : list string) :
  filter is_store_call (map (CallGetDoc "credentials") ids)
  = map (CallGetDoc "credentials") ids.
Proof.
  induction ids as [|id ids IH]; [done|].
  simpl. rewrite filter_cons_True by (simpl; tauto). by rewrite IH.
Qed.

Lemma promise_all_fulfilled_no_fault env (ids : list string) fetched :
  promise_all (map (settled env) ids) = Fulfilled fetched →
  ∀ id, id ∈ ids → credentialFaults env !! id = None.
Proof.
  intros Hall id Hin.
  destruct (credentialFaults env !! id) as [e|] eqn:Hf; [|done].
  destruct (promise_all_fault env ids id Hin) as (? & ? & _ & _ & Hrej).
  { by rewrite Hf. }
  rewrite Hrej in Hall. discriminate.
Qed.

Lemma has_credentials_true profile :
  has_credentials profile = true →
  ∃ p ids, profile = Some p ∧ Profile.credentials p = Some ids ∧
           ids ≠ [] ∧ credential_ids profile = ids.
Proof.
  unfold has_credentials, credential_ids.
  destruct profile as [p|]; [|done].
  destruct (Profile.credentials p) as [[|id ids]|] eqn:Hc; [done| |done].
  intros _. exists p, (id :: ids). by rewrite Hc.
Qed.

Lemma has_credentials_false p ids :
  Profile.credentials p = Some ids →
  has_credentials (Some p) = false → ids = [].
Proof.
  unfold has_credentials. intros ->. by destruct ids.
Qed.

(** The profile that was fetched is stored, whatever comes after. *)
Lemma userProfile_run_fulfilled env u profile w :
  user env = Some u →
  userService env (uid u) = Fulfilled profile →
  userProfile (run env w) = profile.
Proof.
  intros Hu Hp. destruct (has_credentials profile) eqn:Hhas.
  - destruct (promise_all (map (settled env) (credential_ids profile)))
      as [fetched|e] eqn:Hall.
    + by rewrite (run_all_fulfilled env u Hu profile fetched w Hp Hhas Hall).
    + by rewrite (run_lookup_rejected env u Hu profile e w Hp Hhas Hall).
  - by rewrite (run_no_credentials env u Hu profile w Hp Hhas).
Qed.

(** A run leaves the credentials as they were or replaces them with
    the records of the ids of the fetched profile. *)
Lemma run_credentials_cases env w :
  credentials (run env w) = credentials w
  ∨ ∃ u p ids, user env = Some u ∧
      userService env (uid u) = Fulfilled (Some p) ∧
      Profile.credentials p = Some ids ∧
      credentials (run env w) = existing_records env ids.
Proof.
  destruct (user env) as [u|] eqn:Hu.
  - destruct (userService env (uid u)) as [profile|e] eqn:Hp.
    + destruct (has_credentials profile) eqn:Hhas.
      * destruct (has_credentials_true _ Hhas) as (p & ids & -> & Hc & Hne & Hids).
        destruct (promise_all (map (settled env) (credential_ids (Some p))))
          as [fetched|e] eqn:Hall.
        -- right. exists u, p, ids. repeat split; [done..|].
           rewrite Hids in Hall.
           by rewrite (run_no_fault env u p ids w Hu Hp Hc Hne
                         (promise_all_fulfilled_no_fault env ids fetched Hall)).
        -- left.
           by rewrite (run_lookup_rejected env u Hu (Some p) e w Hp Hhas Hall).
      * left. by rewrite (run_no_credentials env u Hu profile w Hp Hhas).
    + left. by rewrite (run_profile_rejected env u Hu e w Hp).
  - left. unfold run. by rewrite (run_signed_out env w Hu).
Qed.

Lemma runs_app envs1 envs2 w :
  runs (envs1 ++ envs2) w = runs envs2 (runs envs1 w).
Proof. revert w. induction envs1 as [|env envs1 IH]; intros w; [done|]. apply IH. Qed.

(** X1.  A run of a signed-in dashboard emits the error notification
    exactly when the profile fetch is rejected or the store faults on
    an id of the fetched profile, and then exactly once, however many
    ids fault; every other run emits none. *)
Theorem X1_one_notification_iff_failure env u w :
  user env = Some u →
  let failing :=
    (∃ e, userService env (uid u) = Rejected e)
    ∨ (∃ p ids id, userService env (uid u) = Fulfilled (Some p) ∧
         Profile.credentials p = Some ids ∧ id ∈ ids ∧
         is_Some (credentialFaults env !! id)) in
  (failing →
   toasts (run env w) = toasts w ++ [ToastError "Failed to load credentials"]) ∧
  (¬ failing → toasts (run env w) = toasts w).
Proof.
  intros Hu failing. split.
  - intros [[e Hp]|(p & ids & id & Hp & Hc & Hin & Hf)].
    + rewrite (run_profile_rejected env u Hu e w Hp).
      apply (toasts_failure w [_] e). simpl.
      by rewrite filter_cons_False by (simpl; tauto).
    + destruct (run_fault env u p ids id w Hu Hp Hc Hin Hf)
        as (id' & e & _ & _ & _ & ->).
      change (toasts (set_profile (Some p) ?w')) with (toasts w').
      apply (toasts_failure w (_ :: _) e), filter_is_toast_fetches.
  - intros Hnot.
    destruct (userService env (uid u)) as [profile|e] eqn:Hp;
      [|exfalso; apply Hnot; left; by exists e].
    destruct (has_credentials profile) eqn:Hhas.
    + destruct (has_credentials_true _ Hhas) as (p & ids & -> & Hc & Hne & _).
      rewrite (run_no_fault env u p ids w Hu Hp Hc Hne).
      * change (toasts (set_credentials ?c (set_profile ?q ?w')))
          with (toasts w').
        by rewrite toasts_add_events, filter_is_toast_fetches, app_nil_r.
      * intros id Hin.
        destruct (credentialFaults env !! id) as [e|] eqn:Hf; [|done].
        exfalso. apply Hnot. right. exists p, ids, id.
        repeat split; [done..|]. by rewrite Hf.
    + rewrite (run_no_credentials env u Hu profile w Hp Hhas).
      change (toasts (set_profile ?q ?w')) with (toasts w').
      rewrite toasts_add_events. simpl.
      rewrite filter_cons_False by (simpl; tauto). apply app_nil_r.
Qed.

Lemma X1_one_notification_iff_failure_witness :
  let failing :=
    (∃ e, userService Sample.both_fault (uid {| uid := "u1" |}) = Rejected e)
    ∨ (∃ p ids id,
         userService Sample.both_fault (uid {| uid := "u1" |})
           = Fulfilled (Some p) ∧
         Profile.credentials p = Some ids ∧ id ∈ ids ∧
         is_Some (credentialFaults Sample.both_fault !! id)) in
  (failing →
   toasts (run Sample.both_fault initial_world)
   = toasts initial_world ++ [ToastError "Failed to load credentials"]) ∧
  (¬ failing →
   toasts (run Sample.both_fault initial_world) = toasts initial_world).
Proof.
  apply (X1_one_notification_iff_failure Sample.both_fault {| uid := "u1" |}
           initial_world).
  reflexivity.
Defined.

(** X2.  A run for a profile that lists no credential (a null profile,
    a missing list or an empty one) never clears the list: after any
    earlier runs of the effect, the dashboard goes on showing the
    credentials the earlier runs left, under the new profile and
    without a notification. *)
Theorem X2_no_credentials_keeps_earlier_list envs env u profile w :
  user env = Some u →
  userService env (uid u) = Fulfilled profile →
  has_credentials profile = false →
  credentials (runs (envs ++ [env]) w) = credentials (runs envs w) ∧
  credentialList (runs (envs ++ [env]) w) = credentialList (runs envs w) ∧
  userProfile (runs (envs ++ [env]) w) = profile ∧
  toasts (runs (envs ++ [env]) w) = toasts (runs envs w).
Proof.
  intros Hu Hp Hhas. rewrite runs_app. simpl.
  rewrite (run_no_credentials env u Hu profile (runs envs w) Hp Hhas).
  repeat split.
  change (toasts (set_profile ?q ?w')) with (toasts w').
  rewrite toasts_add_events. simpl.
  rewrite filter_cons_False by (simpl; tauto). apply app_nil_r.
Qed.

Lemma X2_no_credentials_keeps_earlier_list_witness :
  credentials (runs ([Scenario.A] ++ [Scenario.B]) initial_world)
    = credentials (runs [Scenario.A] initial_world) ∧
  credentialList (runs ([Scenario.A] ++ [Scenario.B]) initial_world)
    = credentialList (runs [Scenario.A] initial_world) ∧
  userProfile (runs ([Scenario.A] ++ [Scenario.B]) initial_world)
    = Some Scenario.u2 ∧
  toasts (runs ([Scenario.A] ++ [Scenario.B]) initial_world)
    = toasts (runs [Scenario.A] initial_world).
Proof.
  apply (X2_no_credentials_keeps_earlier_list [Scenario.A] Scenario.B
           {| uid := "u2" |} (Some Scenario.u2) initial_world);
    reflexivity.
Defined.

Lemma existing_records_none env (ids : list string) :
  (∀ id, id ∈ ids → credentialDocs env !! id = None) →
  existing_records env ids = [].
Proof.
  unfold existing_records. induction ids as [|id ids IH]; intros Hnone; [done|].
  simpl. rewrite (Hnone id) by left. simpl.
  apply IH. intros id' Hin. apply Hnone. by right.
Qed.

(** X3.  When the profile lists ids and none of them has a document
    any more (and the store faults on none), the list is cleared: the
    credentials of earlier runs are replaced by the empty list, the
    section shows the empty-state text, and no notification is
    emitted. *)
Theorem X3_all_records_absent_clears_list env u p (ids : list string) w :
  user env = Some u →
  userService env (uid u) = Fulfilled (Some p) →
  Profile.credentials p = Some ids →
  ids ≠ [] →
  (∀ id, id ∈ ids → credentialFaults env !! id = None) →
  (∀ id, id ∈ ids → credentialDocs env !! id = None) →
  credentials (run env w) = [] ∧
  credentialList (run env w) = NoCredentialsFound ∧
  toasts (run env w) = toasts w.
Proof.
  intros Hu Hp Hc Hne Hno Hnone.
  rewrite (run_no_fault env u p ids w Hu Hp Hc Hne Hno).
  rewrite (existing_records_none env ids Hnone).
  repeat split.
  change (toasts (set_credentials ?c (set_profile ?q ?w'))) with (toasts w').
  by rewrite toasts_add_events, filter_is_toast_fetches, app_nil_r.
Qed.

Lemma X3_all_records_absent_clears_list_witness :
  credentials (run Sample.all_deleted Scenario.rendered) = [] ∧
  credentialList (run Sample.all_deleted Scenario.rendered)
    = NoCredentialsFound ∧
  toasts (run Sample.all_deleted Scenario.rendered)
    = toasts Scenario.rendered.
Proof.
  apply (X3_all_records_absent_clears_list Sample.all_deleted
           {| uid := "u1" |} Scenario.u1 ["c1"; "c2"] Scenario.rendered).
  - reflexivity.
  - reflexivity.
  - reflexivity.
  - discriminate.
  - intros id _. reflexivity.
  - intros id _. reflexivity.
Defined.

Lemma filter_is_store_call_fetches userId (ids : list string) :
  filter is_store_call
    (CallGetUserProfile userId :: map (CallGetDoc "credentials") ids)
  = CallGetUserProfile userId :: map (CallGetDoc "credentials") ids.
Proof.
  rewrite filter_cons_True by (simpl; tauto).
  by rewrite filter_is_store_call_calls.
Qed.

(** X4.  A run for a fetched profile issues the profile fetch and then
    one lookup per entry of the id list, in list order and repeated
    entries included, whether or not the store faults on some of them:
    no lookup is skipped after a failing one. *)
Theorem X4_one_lookup_per_listed_id env u p (ids : list string) w :
  user env = Some u →
  userService env (uid u) = Fulfilled (Some p) →
  Profile.credentials p = Some ids →
  store_calls (run env w)
  = store_calls w ++ CallGetUserProfile (uid u)
                  :: map (CallGetDoc "credentials") ids.
Proof.
  intros Hu Hp Hc. destruct (has_credentials (Some p)) eqn:Hhas.
  - destruct (has_credentials_true _ Hhas) as (p' & ids' & [= <-] & Hc' & _ & Hids).
    rewrite Hc in Hc'. injection Hc' as <-.
    destruct (promise_all (map (settled env) (credential_ids (Some p))))
      as [fetched|e] eqn:Hall.
    + rewrite (run_all_fulfilled env u Hu (Some p) fetched w Hp Hhas Hall), Hids.
      change (store_calls (set_credentials ?c (set_profile ?q ?w')))
        with (store_calls w').
      rewrite store_calls_add_events. f_equal.
      apply filter_is_store_call_fetches.
    + rewrite (run_lookup_rejected env u Hu (Some p) e w Hp Hhas Hall), Hids.
      change (store_calls (set_profile ?q ?w')) with (store_calls w').
      rewrite store_calls_add_events. f_equal.
      change (CallGetUserProfile (uid u)
              :: map (CallGetDoc "credentials") ids ++ failure_events e)
        with ((CallGetUserProfile (uid u)
               :: map (CallGetDoc "credentials") ids) ++ failure_events e).
      rewrite filter_app, filter_is_store_call_fetches.
      apply app_nil_r.
  - rewrite (has_credentials_false p ids Hc Hhas).
    rewrite (run_no_credentials env u Hu (Some p) w Hp Hhas).
    change (store_calls (set_profile ?q ?w')) with (store_calls w').
    rewrite store_calls_add_events. f_equal.
Qed.

Lemma X4_one_lookup_per_listed_id_witness :
  store_calls (run Sample.both_fault initial_world)
  = store_calls initial_world ++ CallGetUserProfile "u1"
      :: map (CallGetDoc "credentials") ["c1"; "c2"].
Proof.
  apply (X4_one_lookup_per_listed_id Sample.both_fault {| uid := "u1" |}
           Scenario.u1 ["c1"; "c2"] initial_world); reflexivity.
Defined.

Lemma existing_records_app env (ids1 ids2 : list string) :
  existing_records env (ids1 ++ ids2)
  = existing_records env ids1 ++ existing_records env ids2.
Proof. unfold existing_records. apply omap_app. Qed.

Lemma existing_records_cons_Some env id (ids : list string) data :
  credentialDocs env !! id = Some data →
  existing_records env (id :: ids)
  = spread_with_id id data :: existing_records env ids.
Proof. intros Hd. unfold existing_records. simpl. by rewrite Hd. Qed.

Lemma credentialList_cards w :
  credentials w ≠ [] →
  credentialList w = CredentialCards (map credential_id (credentials w)).
Proof. unfold credentialList. by destruct (credentials w). Qed.

(** X5.  The cards are keyed by [credential.id] and the id list is
    never deduplicated: when the profile lists twice an id whose
    document exists (and the store faults on no id), the list shows
    the record twice, and two cards carry the same key. *)
Theorem X5_repeated_id_repeats_key env u p (l1 l2 l3 : list string) id data w :
  user env = Some u →
  userService env (uid u) = Fulfilled (Some p) →
  Profile.credentials p = Some (l1 ++ id :: l2 ++ id :: l3) →
  (∀ id', id' ∈ l1 ++ id :: l2 ++ id :: l3 →
          credentialFaults env !! id' = None) →
  credentialDocs env !! id = Some data →
  ∃ keys1 keys2 keys3,
    credentialList (run env w)
    = CredentialCards
        (keys1 ++ credential_id (spread_with_id id data)
               :: keys2 ++ credential_id (spread_with_id id data) :: keys3) ∧
    ¬ NoDup (keys1 ++ credential_id (spread_with_id id data)
                   :: keys2 ++ credential_id (spread_with_id id data)
                   :: keys3).
Proof.
  intros Hu Hp Hc Hno Hd.
  assert (l1 ++ id :: l2 ++ id :: l3 ≠ []) as Hne by (by destruct l1).
  exists (map credential_id (existing_records env l1)),
         (map credential_id (existing_records env l2)),
         (map credential_id (existing_records env l3)).
  split.
  - rewrite credentialList_cards;
      rewrite (run_no_fault env u p _ w Hu Hp Hc Hne Hno); simpl.
    + rewrite existing_records_app, (existing_records_cons_Some _ _ _ _ Hd).
      rewrite existing_records_app, (existing_records_cons_Some _ _ _ _ Hd).
      by rewrite map_app, map_cons, map_app, map_cons.
    + rewrite existing_records_app, (existing_records_cons_Some _ _ _ _ Hd).
      by destruct (existing_records env l1).
  - intros Hnd. apply NoDup_app in Hnd as (_ & _ & Hnd).
    apply NoDup_cons in Hnd as [Hnotin _]. apply Hnotin.
    apply elem_of_app. right. left.
Qed.

Lemma X5_repeated_id_repeats_key_witness :
  ∃ keys1 keys2 keys3,
    credentialList (run Sample.listed_twice initial_world)
    = CredentialCards
        (keys1 ++ credential_id (spread_with_id "c1" Scenario.degree)
               :: keys2 ++ credential_id (spread_with_id "c1" Scenario.degree)
               :: keys3) ∧
    ¬ NoDup (keys1 ++ credential_id (spread_with_id "c1" Scenario.degree)
                   :: keys2
                   ++ credential_id (spread_with_id "c1" Scenario.degree)
                   :: keys3).
Proof.
  apply (X5_repeated_id_repeats_key Sample.listed_twice {| uid := "u1" |}
           Sample.twice [] ["c2"] [] "c1" Scenario.degree initial_world).
  - reflexivity.
  - reflexivity.
  - reflexivity.
  - intros id' _. reflexivity.
  - reflexivity.
Defined.

Lemma welcomeName_profile p n w :
  userProfile w = Some p → Profile.displayName p = Some n → n ≠ "" →
  welcomeName w = n.
Proof.
  intros Hp Hn Hne. unfold welcomeName. rewrite Hp, Hn.
  by destruct (decide (n = "")).
Qed.

Lemma welcomeName_not_empty w : welcomeName w ≠ "".
Proof.
  unfold welcomeName. destruct (userProfile w) as [p|]; [|done].
  destruct (Profile.displayName p) as [n|]; [|done].
  by destruct (decide (n = "")).
Qed.

(** X6.  The welcome banner follows the profile fetch alone.  A
    rejected fetch leaves the name that was shown; a profile that
    resolves to null, or whose display name is missing or empty, gives
    the fallback name; a fetched profile with a name shows that name
    even when the credential lookups of the same run fail.  The name
    shown is never empty. *)
Theorem X6_welcome_name_follows_profile_fetch env u w :
  user env = Some u →
  (∀ e, userService env (uid u) = Rejected e →
        welcomeName (run env w) = welcomeName w) ∧
  (userService env (uid u) = Fulfilled None →
   welcomeName (run env w) = "Student") ∧
  (∀ p, userService env (uid u) = Fulfilled (Some p) →
        Profile.displayName p = None ∨ Profile.displayName p = Some "" →
        welcomeName (run env w) = "Student") ∧
  (∀ p n, userService env (uid u) = Fulfilled (Some p) →
          Profile.displayName p = Some n → n ≠ "" →
          welcomeName (run env w) = n) ∧
  welcomeName (run env w) ≠ "".
Proof.
  intros Hu. split; [|split; [|split; [|split]]].
  - intros e Hp. by rewrite (run_profile_rejected env u Hu e w Hp).
  - intros Hp. unfold welcomeName.
    by rewrite (userProfile_run_fulfilled env u None w Hu Hp).
  - intros p Hp Hn. unfold welcomeName.
    rewrite (userProfile_run_fulfilled env u (Some p) w Hu Hp).
    by destruct Hn as [-> | ->].
  - intros p n Hp Hn Hne. apply (welcomeName_profile p); [|done..].
    by apply (userProfile_run_fulfilled env u (Some p) w Hu Hp).
  - apply welcomeName_not_empty.
Qed.

Lemma X6_welcome_name_follows_profile_fetch_witness :
  (∀ e, userService Scenario.D (uid {| uid := "u1" |}) = Rejected e →
        welcomeName (run Scenario.D Scenario.rendered)
        = welcomeName Scenario.rendered) ∧
  (userService Scenario.D (uid {| uid := "u1" |}) = Fulfilled None →
   welcomeName (run Scenario.D Scenario.rendered) = "Student") ∧
  (∀ p, userService Scenario.D (uid {| uid := "u1" |}) = Fulfilled (Some p) →
        Profile.displayName p = None ∨ Profile.displayName p = Some "" →
        welcomeName (run Scenario.D Scenario.rendered) = "Student") ∧
  (∀ p n, userService Scenario.D (uid {| uid := "u1" |})
            = Fulfilled (Some p) →
          Profile.displayName p = Some n → n ≠ "" →
          welcomeName (run Scenario.D Scenario.rendered) = n) ∧
  welcomeName (run Scenario.D Scenario.rendered) ≠ "".
Proof.
  apply (X6_welcome_name_follows_profile_fetch Scenario.D {| uid := "u1" |}
           Scenario.rendered).
  reflexivity.
Defined.

(** X7.  Whatever the sequence of runs of the effect on a freshly
    mounted dashboard, every credential it shows was read from the
    store: it is the stored fields, together with the id, of a
    document of the collection of one of the runs, looked up under an
    id that the profile fetched in that run lists. *)
Theorem X7_shown_credentials_come_from_store envs (c : Credential) :
  c ∈ credentials (runs envs initial_world) →
  ∃ env u p ids id data,
    env ∈ envs ∧ user env = Some u ∧
    userService env (uid u) = Fulfilled (Some p) ∧
    Profile.credentials p = Some ids ∧ id ∈ ids ∧
    credentialDocs env !! id = Some data ∧
    c = spread_with_id id data.
Proof.
  assert (∀ envs w,
            c ∈ credentials (runs envs w) →
            c ∈ credentials w
            ∨ ∃ env u p ids id data,
                env ∈ envs ∧ user env = Some u ∧
                userService env (uid u) = Fulfilled (Some p) ∧
                Profile.credentials p = Some ids ∧ id ∈ ids ∧
                credentialDocs env !! id = Some data ∧
                c = spread_with_id id data) as Hgen.
  { clear envs. induction envs as [|env envs IH]; intros w Hin; [by left|].
    simpl in Hin. destruct (IH _ Hin) as [Hrun|Hlater].
    - destruct (run_credentials_cases env w)
        as [Hsame|(u & p & ids & Hu & Hp & Hc & Hrec)].
      + left. by rewrite <- Hsame.
      + right. rewrite Hrec in Hrun.
        apply elem_of_existing_records in Hrun as (id & data & Hid & Hd & ->).
        exists env, u, p, ids, id, data. split; [left|done].
    - right. destruct Hlater as (env' & u & p & ids & id & data & Hin' & Hrest).
      exists env', u, p, ids, id, data. split; [by right|done]. }
  intros Hin. destruct (Hgen envs initial_world Hin) as [Hinit|Hfound]; [|done].
  by apply elem_of_nil in Hinit.
Qed.

Lemma X7_shown_credentials_come_from_store_witness :
  ∃ env u p ids id data,
    env ∈ [Scenario.A; Scenario.B] ∧ user env = Some u ∧
    userService env (uid u) = Fulfilled (Some p) ∧
    Profile.credentials p = Some ids ∧ id ∈ ids ∧
    credentialDocs env !! id = Some data ∧
    spread_with_id "c1" Scenario.degree = spread_with_id id data.
Proof.
  apply (X7_shown_credentials_come_from_store [Scenario.A; Scenario.B]
           (spread_with_id "c1" Scenario.degree)).
  vm_compute. left.
Defined.

(** ** The upload page, event by event *)

Lemma invalid_fields_nil (d : CredentialUpload.Draft) :
  CredentialUpload.invalid_fields d = [] ↔
  CredentialUpload.credentialType d ≠ ""
  ∧ CredentialUpload.studentName d ≠ "".
Proof.
  unfold CredentialUpload.invalid_fields. split.
  - intros Hnil. split; intros Hmissing.
    + rewrite filter_cons_True in Hnil; [done|].
      simpl. by rewrite bool_decide_eq_true_2.
    + assert (CredentialUpload.NameField ∈ @nil CredentialUpload.Field) as Hin.
      { rewrite <- Hnil. apply list_elem_of_filter. split.
        - simpl. by rewrite bool_decide_eq_true_2.
        - right; left. }
      by apply elem_of_nil in Hin.
  - intros [Ht Hn].
    rewrite !filter_cons_False, filter_nil; [done|simpl..].
    + by intros [=].
    + by rewrite bool_decide_eq_false_2 by done.
    + by rewrite bool_decide_eq_false_2 by done.
Qed.

Lemma handleSubmit_in_two_halves (s : CredentialUpload.State) :
  CredentialUpload.handleSubmit s
  = CredentialUpload.handleSubmit_resume
      (CredentialUpload.handleSubmit_start s).
Proof. reflexivity. Qed.

Lemma play_app acts1 acts2 (p : CredentialUpload.Page) :
  CredentialUpload.play (acts1 ++ acts2) p
  = CredentialUpload.play acts1 p ≫= CredentialUpload.play acts2.
Proof.
  revert p. induction acts1 as [|a acts1 IH]; intros p; [done|].
  simpl. destruct (CredentialUpload.act a p); [apply IH|done].
Qed.

(** Only the end of a reader writes the preview. *)
Lemma act_preview a (p p1 : CredentialUpload.Page) :
  CredentialUpload.act a p = Some p1 →
  (∀ i, a ≠ CredentialUpload.ReaderEnds i) →
  CredentialUpload.preview (CredentialUpload.ui p1)
  = CredentialUpload.preview (CredentialUpload.ui p).
Proof.
  intros Hact Hnot. destruct a as [d| |files|i|]; simpl in Hact.
  - destruct (bool_decide _ && negb _); [|done].
    destruct (CredentialUpload.invalid_fields d); by injection Hact as <-.
  - destruct (CredentialUpload.timers p); [done|]. by injection Hact as <-.
  - injection Hact as <-. by destruct files.
  - by destruct (Hnot i).
  - destruct (bool_decide _); [done|]. by injection Hact as <-.
Qed.

(** What is shown or still being read was shown or being read before
    the event, or is the first file of the selection the event made. *)
Lemma act_reads a (p p1 : CredentialUpload.Page) (r : option string) :
  CredentialUpload.act a p = Some p1 →
  r = CredentialUpload.preview (CredentialUpload.ui p1)
  ∨ r ∈ CredentialUpload.readers p1 →
  (r = CredentialUpload.preview (CredentialUpload.ui p)
   ∨ r ∈ CredentialUpload.readers p)
  ∨ ∃ rest, a = CredentialUpload.ChooseFiles (r :: rest).
Proof.
  intros Hact Hr. destruct a as [d| |files|i|]; simpl in Hact.
  - destruct (bool_decide _ && negb _); [|done].
    destruct (CredentialUpload.invalid_fields d); injection Hact as <-;
      by left.
  - destruct (CredentialUpload.timers p); [done|]. injection Hact as <-.
    by left.
  - injection Hact as <-. destruct files as [|r0 rest]; [by left|].
    simpl in Hr. destruct Hr as [Hr|Hr]; [left; by left|].
    apply elem_of_app in Hr as [Hr|Hr]; [left; by right|].
    apply list_elem_of_singleton in Hr as ->. right. by exists rest.
  - unfold CredentialUpload.onloadend in Hact.
    destruct (CredentialUpload.readers p !! i) as [result|] eqn:Hi; [|done].
    injection Hact as <-. simpl in Hr. left. right.
    destruct Hr as [->|Hr].
    + by apply (list_elem_of_lookup_2 _ i).
    + by apply (list_elem_of_delete_inv _ i).
  - destruct (bool_decide _); [done|]. injection Hact as <-. by left.
Qed.

Lemma play_reads acts (p p' : CredentialUpload.Page) (r : option string) :
  CredentialUpload.play acts p = Some p' →
  r = CredentialUpload.preview (CredentialUpload.ui p')
  ∨ r ∈ CredentialUpload.readers p' →
  (r = CredentialUpload.preview (CredentialUpload.ui p)
   ∨ r ∈ CredentialUpload.readers p)
  ∨ ∃ rest, CredentialUpload.ChooseFiles (r :: rest) ∈ acts.
Proof.
  revert p. induction acts as [|a acts IH]; intros p Hplay Hr.
  - simpl in Hplay. injection Hplay as <-. by left.
  - simpl in Hplay.
    destruct (CredentialUpload.act a p) as [p1|] eqn:Hact; [|done].
    destruct (IH p1 Hplay Hr) as [Hr1|[rest Hin]];
      [|right; exists rest; by right].
    destruct (act_reads a p p1 r Hact Hr1) as [Hr0|[rest ->]]; [by left|].
    right. exists rest. left.
Qed.

(** X8.  The preview is written only when a reader ends, with the
    result of that reader, and the readers end in any order.  So after
    any events since the mount the preview is none or what the first
    file of one of the selections made so far was read to, and it need
    not be the last selection: of two selections whose reads end in
    the opposite order, the first one stays shown.  No other event
    (an empty selection, a submit press, the end of the upload,
    "Upload Another") changes the preview: it is never reset. *)
Theorem X8_preview_comes_from_a_read acts (p : CredentialUpload.Page) :
  CredentialUpload.play acts CredentialUpload.mounted = Some p →
  (CredentialUpload.preview (CredentialUpload.ui p) = None
   ∨ ∃ rest,
       CredentialUpload.ChooseFiles
         (CredentialUpload.preview (CredentialUpload.ui p) :: rest) ∈ acts) ∧
  (∀ a p1 p2, CredentialUpload.act a p1 = Some p2 →
     (∀ i, a ≠ CredentialUpload.ReaderEnds i) →
     CredentialUpload.preview (CredentialUpload.ui p2)
     = CredentialUpload.preview (CredentialUpload.ui p1)) ∧
  (∀ i p1 p2, CredentialUpload.act (CredentialUpload.ReaderEnds i) p1
              = Some p2 →
     CredentialUpload.readers p1 !! i
     = Some (CredentialUpload.preview (CredentialUpload.ui p2))) ∧
  (∀ first last,
     CredentialUpload.play
       [CredentialUpload.ChooseFiles [first];
        CredentialUpload.ChooseFiles [last];
        CredentialUpload.ReaderEnds 1; CredentialUpload.ReaderEnds 0]
       CredentialUpload.mounted
     = Some {| CredentialUpload.ui :=
                 CredentialUpload.setPreview first CredentialUpload.initial;
               CredentialUpload.timers := 0;
               CredentialUpload.readers := [] |}).
Proof.
  intros Hplay. split; [|split; [|split]].
  - destruct (play_reads acts CredentialUpload.mounted p
                (CredentialUpload.preview (CredentialUpload.ui p)) Hplay)
      as [[Hinit|Hin]|Hfound]; [by left| | |by right].
    + left. by rewrite Hinit.
    + by apply elem_of_nil in Hin.
  - apply act_preview.
  - intros i p1 p2 Hact. simpl in Hact.
    unfold CredentialUpload.onloadend in Hact.
    destruct (CredentialUpload.readers p1 !! i); [|done].
    by injection Hact as <-.
  - done.
Qed.

Lemma X8_preview_comes_from_a_read_witness :
  (CredentialUpload.preview
     (CredentialUpload.ui
        {| CredentialUpload.ui :=
             {| CredentialUpload.step := 1;
                CredentialUpload.uploading := false;
                CredentialUpload.preview := Some "data:first" |};
           CredentialUpload.timers := 0;
           CredentialUpload.readers := [] |}) = None
   ∨ ∃ rest,
       CredentialUpload.ChooseFiles
         (CredentialUpload.preview
            (CredentialUpload.ui
               {| CredentialUpload.ui :=
                    {| CredentialUpload.step := 1;
                       CredentialUpload.uploading := false;
                       CredentialUpload.preview := Some "data:first" |};
                  CredentialUpload.timers := 0;
                  CredentialUpload.readers := [] |}) :: rest)
       ∈ [CredentialUpload.ChooseFiles [Some "data:first"; None];
          CredentialUpload.ChooseFiles [Some "data:last"];
          CredentialUpload.ReaderEnds 1;
          CredentialUpload.PressSubmit Sample.complete;
          CredentialUpload.ReaderEnds 0;
          CredentialUpload.TimerFires;
          CredentialUpload.UploadAnother]) ∧
  (∀ a p1 p2, CredentialUpload.act a p1 = Some p2 →
     (∀ i, a ≠ CredentialUpload.ReaderEnds i) →
     CredentialUpload.preview (CredentialUpload.ui p2)
     = CredentialUpload.preview (CredentialUpload.ui p1)) ∧
  (∀ i p1 p2, CredentialUpload.act (CredentialUpload.ReaderEnds i) p1
              = Some p2 →
     CredentialUpload.readers p1 !! i
     = Some (CredentialUpload.preview (CredentialUpload.ui p2))) ∧
  (∀ first last,
     CredentialUpload.play
       [CredentialUpload.ChooseFiles [first];
        CredentialUpload.ChooseFiles [last];
        CredentialUpload.ReaderEnds 1; CredentialUpload.ReaderEnds 0]
       CredentialUpload.mounted
     = Some {| CredentialUpload.ui :=
                 CredentialUpload.setPreview first CredentialUpload.initial;
               CredentialUpload.timers := 0;
               CredentialUpload.readers := [] |}).
Proof.
  apply (X8_preview_comes_from_a_read
           [CredentialUpload.ChooseFiles [Some "data:first"; None];
            CredentialUpload.ChooseFiles [Some "data:last"];
            CredentialUpload.ReaderEnds 1;
            CredentialUpload.PressSubmit Sample.complete;
            CredentialUpload.ReaderEnds 0;
            CredentialUpload.TimerFires;
            CredentialUpload.UploadAnother]).
  vm_compute. reflexivity.
Defined.

Lemma act_consistent a (p p' : CredentialUpload.Page) :
  CredentialUpload.consistent p →
  CredentialUpload.act a p = Some p' →
  CredentialUpload.consistent p'.
Proof.
  unfold CredentialUpload.consistent.
  destruct p as [[st up pv] n rs]. simpl. intros (Hstep & Htimers & Hup) Hact.
  destruct a as [d| |files|i|]; simpl in Hact.
  - destruct (bool_decide (st = 1)) eqn:Hst; [|done].
    apply bool_decide_eq_true_1 in Hst as ->.
    destruct up; [done|]. simpl in Hact.
    destruct (CredentialUpload.invalid_fields d); injection Hact as <-; simpl.
    + split; [by left|]. split; [by rewrite Htimers|done].
    + done.
  - destruct n as [|n]; [done|]. injection Hact as <-. simpl.
    destruct up; [|done]. injection Htimers as ->.
    split; [by right|]. split; [done|]. done.
  - injection Hact as <-. by destruct files.
  - unfold CredentialUpload.onloadend in Hact. simpl in Hact.
    destruct (rs !! i); [|done]. by injection Hact as <-.
  - destruct (bool_decide (st = 1)) eqn:Hst; [done|]. injection Hact as <-.
    simpl. apply bool_decide_eq_false_1 in Hst.
    split; [by left|]. split; [done|]. intros Hu. by specialize (Hup Hu).
Qed.

(** X9.  However the page is used from its mount on, the step is 1 or
    2, at most one simulated upload is under way and it is under way
    exactly while [uploading] holds, and the success screen is never
    shown with an upload under way. *)
Theorem X9_page_stays_consistent acts (p : CredentialUpload.Page) :
  CredentialUpload.play acts CredentialUpload.mounted = Some p →
  CredentialUpload.consistent p.
Proof.
  assert (CredentialUpload.consistent CredentialUpload.mounted) as Hinit.
  { unfold CredentialUpload.consistent. simpl. split; [by left|done]. }
  revert Hinit. generalize CredentialUpload.mounted as p0.
  induction acts as [|a acts IH]; intros p0 Hinv Hplay.
  - simpl in Hplay. by injection Hplay as <-.
  - simpl in Hplay.
    destruct (CredentialUpload.act a p0) as [p1|] eqn:Hact; [|done].
    apply (IH p1); [|done]. by apply (act_consistent a p0).
Qed.

Lemma X9_page_stays_consistent_witness :
  CredentialUpload.consistent
    {| CredentialUpload.ui :=
         {| CredentialUpload.step := 1; CredentialUpload.uploading := true;
            CredentialUpload.preview := None |};
       CredentialUpload.timers := 1;
       CredentialUpload.readers := [] |}.
Proof.
  apply (X9_page_stays_consistent
           [CredentialUpload.PressSubmit Sample.complete;
            CredentialUpload.TimerFires;
            CredentialUpload.UploadAnother;
            CredentialUpload.PressSubmit Scenario.no_document]).
  vm_compute. reflexivity.
Defined.

(** An upload is under way or the success screen shows only after a
    submit press that the form let through. *)
Lemma play_busy_after_accepted acts (p p' : CredentialUpload.Page) :
  CredentialUpload.play acts p = Some p' →
  CredentialUpload.step (CredentialUpload.ui p') ≠ 1
  ∨ CredentialUpload.timers p' ≠ 0 →
  (CredentialUpload.step (CredentialUpload.ui p) ≠ 1
   ∨ CredentialUpload.timers p ≠ 0)
  ∨ ∃ d, CredentialUpload.PressSubmit d ∈ acts ∧
         CredentialUpload.credentialType d ≠ "" ∧
         CredentialUpload.studentName d ≠ "".
Proof.
  revert p. induction acts as [|a acts IH]; intros p Hplay Hbusy.
  - simpl in Hplay. injection Hplay as <-. by left.
  - simpl in Hplay.
    destruct (CredentialUpload.act a p) as [p1|] eqn:Hact; [|done].
    destruct (IH p1 Hplay Hbusy) as [Hbusy1|(d & Hin & Hok)];
      [|right; exists d; split; [by right|done]].
    clear IH Hplay Hbusy.
    destruct a as [d| |files|i|]; simpl in Hact.
    + destruct (bool_decide _ && negb _); [|done].
      destruct (CredentialUpload.invalid_fields d) eqn:Hinv.
      * right. exists d. split; [left|]. by apply invalid_fields_nil.
      * injection Hact as <-. by left.
    + destruct (CredentialUpload.timers p) eqn:Ht; [done|]. left. right. lia.
    + injection Hact as <-. left. by destruct files.
    + unfold CredentialUpload.onloadend in Hact.
      destruct (CredentialUpload.readers p !! i); [|done].
      injection Hact as <-. by left.
    + destruct (bool_decide _) eqn:Hst; [done|]. left. left.
      by apply bool_decide_eq_false_1 in Hst.
Qed.

(** X10.  The success screen is reached only through a submit press
    with a credential type and a student name: if the page shows step
    2 after some events since its mount, one of them was such a press. *)
Theorem X10_success_only_after_accepted_submit acts
    (p : CredentialUpload.Page) :
  CredentialUpload.play acts CredentialUpload.mounted = Some p →
  CredentialUpload.step (CredentialUpload.ui p) = 2 →
  ∃ d, CredentialUpload.PressSubmit d ∈ acts ∧
       CredentialUpload.credentialType d ≠ "" ∧
       CredentialUpload.studentName d ≠ "".
Proof.
  intros Hplay Hstep.
  destruct (play_busy_after_accepted acts CredentialUpload.mounted p Hplay)
    as [[Hs|Ht]|Hfound]; [left; lia|done|done|done].
Qed.

Lemma X10_success_only_after_accepted_submit_witness :
  ∃ d, CredentialUpload.PressSubmit d
       ∈ [CredentialUpload.PressSubmit Scenario.no_type;
          CredentialUpload.PressSubmit Scenario.no_document;
          CredentialUpload.TimerFires] ∧
       CredentialUpload.credentialType d ≠ "" ∧
       CredentialUpload.studentName d ≠ "".
Proof.
  apply (X10_success_only_after_accepted_submit
           [CredentialUpload.PressSubmit Scenario.no_type;
            CredentialUpload.PressSubmit Scenario.no_document;
            CredentialUpload.TimerFires]
           {| CredentialUpload.ui :=
                {| CredentialUpload.step := 2;
                   CredentialUpload.uploading := false;
                   CredentialUpload.preview := None |};
              CredentialUpload.timers := 0;
              CredentialUpload.readers := [] |}).
  - vm_compute. reflexivity.
  - reflexivity.
Defined.

(** X11.  A whole upload leaves nothing behind.  From a form at rest
    (step 1, no upload under way), a submit press with a type and a
    name, the end of the simulated upload and "Upload Another" are all
    possible in that order, the success screen being shown in between,
    and they bring the page back to exactly the state it started from,
    whatever was entered. *)
Theorem X11_upload_cycle_restores_page (d : CredentialUpload.Draft)
    (p : CredentialUpload.Page) :
  CredentialUpload.step (CredentialUpload.ui p) = 1 →
  CredentialUpload.uploading (CredentialUpload.ui p) = false →
  CredentialUpload.credentialType d ≠ "" →
  CredentialUpload.studentName d ≠ "" →
  CredentialUpload.play
    [CredentialUpload.PressSubmit d; CredentialUpload.TimerFires] p
  = Some {| CredentialUpload.ui :=
              CredentialUpload.handleSubmit (CredentialUpload.ui p);
            CredentialUpload.timers := CredentialUpload.timers p;
            CredentialUpload.readers := CredentialUpload.readers p |} ∧
  CredentialUpload.play
    [CredentialUpload.PressSubmit d; CredentialUpload.TimerFires;
     CredentialUpload.UploadAnother] p
  = Some p.
Proof.
  intros Hstep Hup Ht Hn.
  assert (CredentialUpload.invalid_fields d = []) as Hinv
    by (by apply invalid_fields_nil).
  destruct p as [[st up pv] n rs]. simpl in Hstep, Hup. subst st up.
  split; simpl; by rewrite Hinv.
Qed.

Lemma X11_upload_cycle_restores_page_witness :
  CredentialUpload.play
    [CredentialUpload.PressSubmit Scenario.no_document;
     CredentialUpload.TimerFires] CredentialUpload.mounted
  = Some {| CredentialUpload.ui :=
              CredentialUpload.handleSubmit
                (CredentialUpload.ui CredentialUpload.mounted);
            CredentialUpload.timers :=
              CredentialUpload.timers CredentialUpload.mounted;
            CredentialUpload.readers :=
              CredentialUpload.readers CredentialUpload.mounted |} ∧
  CredentialUpload.play
    [CredentialUpload.PressSubmit Scenario.no_document;
     CredentialUpload.TimerFires; CredentialUpload.UploadAnother]
    CredentialUpload.mounted
  = Some CredentialUpload.mounted.
Proof.
  apply (X11_upload_cycle_restores_page Scenario.no_document
           CredentialUpload.mounted).
  - reflexivity.
  - reflexivity.
  - discriminate.
  - discriminate.
Defined.

(** ** The navigation bar *)

(** X12.  The links are keyed by their path.  The six keys are
    pairwise distinct exactly when the user type is one of the two
    role constants; for any other user type, a missing one included,
    "Dashboard" and "Profile" both lead to the root path and carry the
    same key. *)
Theorem X12_link_keys_distinct_iff_known_role (userTypes : Navbar.UserTypes)
    (userType : option string) :
  (NoDup (map snd (Navbar.navLinks userTypes userType)) ↔
   userType = Some (Navbar.STUDENT userTypes)
   ∨ userType = Some (Navbar.INSTITUTE userTypes)) ∧
  (userType ≠ Some (Navbar.STUDENT userTypes) →
   userType ≠ Some (Navbar.INSTITUTE userTypes) →
   Navbar.getDashboardPath userTypes userType = "/" ∧
   Navbar.getProfilePath userTypes userType = "/").
Proof.
  unfold Navbar.navLinks, Navbar.getDashboardPath, Navbar.getProfilePath.
  destruct (decide (userType = Some (Navbar.STUDENT userTypes))) as [Hs|Hs];
    [|destruct (decide (userType = Some (Navbar.INSTITUTE userTypes)))
        as [Hi|Hi]]; simpl.
  - split; [|done]. split; [by left|]. intros _.
    apply (bool_decide_unpack _). by vm_compute.
  - split; [|done]. split; [by right|]. intros _.
    apply (bool_decide_unpack _). by vm_compute.
  - split; [|done]. split; [|by intros [?|?]].
    intros Hnd. apply NoDup_cons in Hnd as [Hnotin _].
    exfalso. apply Hnotin. do 2 right. left.
Qed.

Lemma prop_insert_eq (o : Navbar.JsObject) k v :
  Navbar.prop (<[k := v]> o) k = v.
Proof. unfold Navbar.prop. by rewrite lookup_insert_eq. Qed.

Lemma prop_insert_ne (o : Navbar.JsObject) k k' v :
  k ≠ k' → Navbar.prop (<[k := v]> o) k' = Navbar.prop o k'.
Proof. intros Hne. unfold Navbar.prop. by rewrite lookup_insert_ne. Qed.

(** X13.  In [userInfo] the picture is the one of Auth0 and nothing
    else: a picture of the context user is dropped, also when Auth0
    has none.  A name or an email of Auth0 that is not empty wins over
    the context's; without an Auth0 user the name and the email are
    the context's.  Every other property is the context user's. *)
Theorem X13_user_info_merge (contextUser auth0User : option Navbar.JsObject) :
  Navbar.prop (Navbar.userInfo contextUser auth0User) "picture"
    = Navbar.opt_prop auth0User "picture" ∧
  Navbar.prop (Navbar.userInfo contextUser None) "picture" = None ∧
  Navbar.prop (Navbar.userInfo contextUser None) "name"
    = Navbar.opt_prop contextUser "name" ∧
  Navbar.prop (Navbar.userInfo contextUser None) "email"
    = Navbar.opt_prop contextUser "email" ∧
  (∀ n, Navbar.opt_prop auth0User "name" = Some n → n ≠ "" →
        Navbar.prop (Navbar.userInfo contextUser auth0User) "name" = Some n) ∧
  (∀ m, Navbar.opt_prop auth0User "email" = Some m → m ≠ "" →
        Navbar.prop (Navbar.userInfo contextUser auth0User) "email" = Some m) ∧
  (∀ k, k ≠ "picture" → k ≠ "name" → k ≠ "email" →
        Navbar.userInfo contextUser auth0User !! k
        = default ∅ contextUser !! k).
Proof.
  unfold Navbar.userInfo.
  split; [by rewrite !prop_insert_ne, prop_insert_eq by done|].
  split; [by rewrite !prop_insert_ne, prop_insert_eq by done|].
  split; [by rewrite prop_insert_ne, prop_insert_eq by done|].
  split; [by rewrite prop_insert_eq|].
  split; [|split].
  - intros n Hn Hne. rewrite prop_insert_ne, prop_insert_eq by done.
    rewrite Hn. simpl. by destruct (decide (n = "")).
  - intros m Hm Hne. rewrite prop_insert_eq.
    rewrite Hm. simpl. by destruct (decide (m = "")).
  - intros k Hp Hn He. by rewrite !lookup_insert_ne by done.
Qed.

Lemma contains_before sep s :
  Navbar.contains sep (Navbar.before sep s) = false.
Proof.
  induction s as [|a s IH]; [done|].
  simpl. destruct (decide (a = sep)) as [->|Hne]; [done|].
  simpl. by destruct (decide (a = sep)).
Qed.

Lemma before_split sep s :
  s = Navbar.before sep s
  ∨ ∃ rest, s = String.append (Navbar.before sep s) (String sep rest).
Proof.
  induction s as [|a s IH]; [by left|].
  simpl. destruct (decide (a = sep)) as [->|Hne].
  - right. by exists s.
  - destruct IH as [IH|[rest IH]].
    + left. by rewrite <- IH.
    + right. exists rest. change (String a s
        = String a (String.append (Navbar.before sep s) (String sep rest))).
      by f_equal.
Qed.

Lemma before_empty sep s :
  Navbar.before sep s = "" ↔ s = "" ∨ ∃ rest, s = String sep rest.
Proof.
  destruct s as [|a s]; simpl.
  - split; [by left|done].
  - destruct (decide (a = sep)) as [->|Hne].
    + split; [|done]. intros _. right. by exists s.
    + split; [done|]. intros [?|[rest [= ? ?]]]; done.
Qed.

(** X14.  The name beside the avatar, for a user with a name: it is
    the part of the name before its first space, which contains no
    space and is followed in the name by a space or by nothing; but
    when the name is empty or begins with a space, the name is passed
    over and the part of the email before its first [@] is shown, if
    there is an email. *)
Theorem X14_short_name (info : Navbar.JsObject) (n : string) :
  Navbar.prop info "name" = Some n →
  Navbar.contains " " (Navbar.before " " n) = false ∧
  (n = Navbar.before " " n
   ∨ ∃ rest, n = String.append (Navbar.before " " n) (String " " rest)) ∧
  (n ≠ "" → (∀ rest, n ≠ String " " rest) →
   Navbar.shortName info = Some (Navbar.before " " n)) ∧
  (n = "" ∨ (∃ rest, n = String " " rest) →
   Navbar.shortName info
   = Navbar.before "@" <$> Navbar.prop info "email").
Proof.
  intros Hname.
  split; [apply contains_before|]. split; [apply before_split|].
  unfold Navbar.shortName. rewrite Hname. simpl. split.
  - intros Hne Hspace.
    destruct (decide (Navbar.before " " n = "")) as [Hempty|_]; [|done].
    apply before_empty in Hempty as [->|[rest ->]]; [done|].
    by destruct (Hspace rest).
  - intros Hempty. apply before_empty in Hempty.
    by destruct (decide (Navbar.before " " n = "")).
Qed.

Lemma X14_short_name_witness :
  Navbar.contains " " (Navbar.before " " "Ada Lovelace") = false ∧
  ("Ada Lovelace" = Navbar.before " " "Ada Lovelace"
   ∨ ∃ rest, "Ada Lovelace"
             = String.append (Navbar.before " " "Ada Lovelace")
                             (String " " rest)) ∧
  ("Ada Lovelace" ≠ "" → (∀ rest, "Ada Lovelace" ≠ String " " rest) →
   Navbar.shortName Sample.ada = Some (Navbar.before " " "Ada Lovelace")) ∧
  ("Ada Lovelace" = "" ∨ (∃ rest, "Ada Lovelace" = String " " rest) →
   Navbar.shortName Sample.ada
   = Navbar.before "@" <$> Navbar.prop Sample.ada "email").
Proof.
  apply (X14_short_name Sample.ada "Ada Lovelace").
  vm_compute. reflexivity.
Defined.

Lemma before_logout_state (s : Navbar.State) :
  Navbar.contextUser (Navbar.before_logout s) = None ∧
  Navbar.localStorage (Navbar.before_logout s)
    = delete "walletConnected"
        (delete "authSession" (delete "userType" (Navbar.localStorage s))) ∧
  Navbar.isMenuOpen (Navbar.before_logout s) = Navbar.isMenuOpen s ∧
  Navbar.events (Navbar.before_logout s)
    = Navbar.events s ++ [Navbar.SuccessToast "Signed out successfully"].
Proof. done. Qed.

Lemma handleSignOut_state auth0 (s : Navbar.State) :
  Navbar.contextUser (Navbar.handleSignOut auth0 s) = None ∧
  Navbar.localStorage (Navbar.handleSignOut auth0 s)
    = Navbar.localStorage (Navbar.before_logout s) ∧
  Navbar.isMenuOpen (Navbar.handleSignOut auth0 s) = Navbar.isMenuOpen s ∧
  Navbar.events (Navbar.handleSignOut auth0 s)
    = Navbar.events (Navbar.before_logout s)
      ++ Navbar.LogoutCall (Navbar.origin auth0)
         :: match Navbar.logoutThrows auth0 (Navbar.before_logout s) with
            | Some error => [Navbar.ConsoleLog "Error signing out:" error;
                             Navbar.ErrorToast "Failed to sign out"]
            | None => []
            end.
Proof.
  unfold Navbar.handleSignOut.
  destruct (Navbar.logoutThrows auth0 (Navbar.before_logout s));
    repeat split; unfold Navbar.emit; cbn [Navbar.events];
    by rewrite <- ?app_assoc.
Qed.

Lemma cleared_storage (store : gmap string string) k :
  delete "walletConnected" (delete "authSession" (delete "userType" store)) !! k
  = if bool_decide (k ∈ ["userType"; "authSession"; "walletConnected"])
    then None else store !! k.
Proof.
  case_bool_decide as Hk.
  - apply elem_of_cons in Hk as [->|Hk];
      [by rewrite !lookup_delete_ne, lookup_delete_eq by done|].
    apply elem_of_cons in Hk as [->|Hk];
      [by rewrite lookup_delete_ne, lookup_delete_eq by done|].
    apply elem_of_cons in Hk as [->|Hk]; [by rewrite lookup_delete_eq|].
    by apply elem_of_nil in Hk.
  - rewrite !lookup_delete_ne; [done|intros <-; apply Hk..].
    + left.
    + right; left.
    + do 2 right; left.
Qed.

(** X15.  Signing out clears the session before it calls [logout] and
    takes nothing back when the call throws.  [logout] is called, once
    and with the origin as [returnTo], in a state where the context
    user is already null, the three session keys are already gone from
    the local storage (every other key being as it was) and the
    success notification is already out.  What [handleSignOut] did to
    the outside is, in this order: the success notification, the call
    of [logout], and, when that call throws, the console message for
    the error and the failure notification.  In every case the context
    user stays null and the storage stays as it was when [logout] was
    called, and the mobile menu is not shown any more; signing out
    again leaves the storage as it is. *)
Theorem X15_sign_out_clears_session_before_logout auth0 (s : Navbar.State) :
  Navbar.contextUser (Navbar.before_logout s) = None ∧
  (∀ k, Navbar.localStorage (Navbar.before_logout s) !! k
        = if bool_decide (k ∈ ["userType"; "authSession"; "walletConnected"])
          then None else Navbar.localStorage s !! k) ∧
  Navbar.events (Navbar.before_logout s)
    = Navbar.events s ++ [Navbar.SuccessToast "Signed out successfully"] ∧
  Navbar.events (Navbar.handleSignOut auth0 s)
    = Navbar.events s
      ++ Navbar.SuccessToast "Signed out successfully"
         :: Navbar.LogoutCall (Navbar.origin auth0)
         :: match Navbar.logoutThrows auth0 (Navbar.before_logout s) with
            | Some error => [Navbar.ConsoleLog "Error signing out:" error;
                             Navbar.ErrorToast "Failed to sign out"]
            | None => []
            end ∧
  Navbar.contextUser (Navbar.handleSignOut auth0 s) = None ∧
  Navbar.localStorage (Navbar.handleSignOut auth0 s)
    = Navbar.localStorage (Navbar.before_logout s) ∧
  Navbar.menuShown (Navbar.handleSignOut auth0 s) = false ∧
  Navbar.menuShown (Navbar.mobileLogout auth0 s) = false ∧
  Navbar.localStorage (Navbar.handleSignOut auth0 (Navbar.handleSignOut auth0 s))
    = Navbar.localStorage (Navbar.handleSignOut auth0 s).
Proof.
  destruct (before_logout_state s) as (Buser & Bstore & _ & Bev).
  destruct (handleSignOut_state auth0 s) as (Huser & Hstore & Hmenu & Hev).
  split; [done|]. split; [intros k; rewrite Bstore; apply cleared_storage|].
  split; [done|]. split; [by rewrite Hev, Bev, <- app_assoc|].
  split; [done|]. split; [done|]. split; [|split].
  - unfold Navbar.menuShown. rewrite Huser.
    rewrite bool_decide_eq_false_2 by (by intros [? ?]). apply andb_false_r.
  - done.
  - destruct (handleSignOut_state auth0 (Navbar.handleSignOut auth0 s))
      as (_ & -> & _).
    destruct (before_logout_state (Navbar.handleSignOut auth0 s))
      as (_ & -> & _).
    rewrite Hstore, Bstore. apply map_eq. intros k.
    rewrite !cleared_storage. by case_bool_decide.
Qed.

(** ** No error leaves the effect *)

(** X16.  The effect is started without a handler of its own, and it
    needs none: whoever is signed in and whatever the user service and
    the store answer, the promise of [fetchUserData] is fulfilled,
    every rejection having been taken by the [catch] block. *)
Theorem X16_effect_never_rejects env w :
  (fetchUserData env w).2 = Fulfilled tt.
Proof.
  unfold fetchUserData. destruct (user env) as [u|]; [|done].
  unfold try_catch.
  destruct (userService env (uid u)) as [profile|e] eqn:Hp.
  - rewrite (try_profile_fulfilled env u profile w Hp).
    destruct (has_credentials profile); [|done].
    unfold bind. rewrite resolveCredentials_eq.
    by destruct (promise_all (map (settled env) (credential_ids profile))).
  - unfold fetchUserData_try, getUserProfile, bind, emit, ret, await.
    by rewrite Hp.
Qed.
